(** * Email-PIN login: the PIN store, PIN issuance and bearer tokens

    A shallow embedding of [auth.py] (the in-memory PIN store, its
    verification policy, the e-mail delivery step and the JWT wrapper) and of
    the [request_pin] endpoint of [app.py], followed by the properties the
    design document states about them.

    Conventions.
    - A Python [datetime] is an integer number of microseconds; [timedelta]
      arithmetic is integer addition.
    - The module-level dictionary [pin_storage] is a finite map from e-mail
      addresses to entries; every function that touches it takes the current
      map and returns the new one.
    - [datetime.now()] is not a function of the state: every function that
      reads the clock takes the reading as its first argument. *)

From Stdlib Require Import ZArith Lia Ascii String.
From stdpp Require Import gmap strings list fin_maps.

Open Scope Z_scope.

(** ** Time *)

Definition timedelta_minutes (m : Z) : Z := m * 60000000.

(** ** The PIN store ([auth.py], [pin_storage]) *)

(** One value of [pin_storage]: the dictionary
    [{"pin": ..., "expires_at": ..., "attempts": ...}]. *)
Record pin_entry : Type := PinEntry {
  pin : string;
  expires_at : Z;
  attempts : Z
}.

#[global] Instance pin_entry_eq_dec : EqDecision pin_entry.
Proof. solve_decision. Defined.

(** [stored_data["attempts"] += 1] on the dictionary held in the store. *)
Definition bump_attempts (stored_data : pin_entry) : pin_entry :=
  {| pin := pin stored_data;
     expires_at := expires_at stored_data;
     attempts := attempts stored_data + 1 |}.

(** [random.choices(string.digits, k=6)] joined into a string.  The random
    source is an oracle [rng]: its [i]-th draw selects the [i]-th digit. *)
Definition digits : list ascii :=
  ["0"; "1"; "2"; "3"; "4"; "5"; "6"; "7"; "8"; "9"]%char.

Definition choice (rng : nat -> nat) (i : nat) : ascii :=
  nth (rng i mod 10)%nat digits "0"%char.

Definition generate_pin (rng : nat -> nat) : string :=
  string_of_list_ascii (map (choice rng) (seq 0 6)).

(** [store_pin(email, pin)]; [now] is the value of [datetime.now()]. *)
Definition store_pin (now : Z) (email code : string)
    (st : gmap string pin_entry) : gmap string pin_entry :=
  let expiry_time := now + timedelta_minutes 10 in
  <[email := {| pin := code; expires_at := expiry_time; attempts := 0 |}]> st.

(** The five places where [verify_pin] returns, named after what each one
    logs. *)
Inductive verify_branch : Type :=
  | NoPinFound
  | PinExpired
  | TooManyAttempts
  | PinVerified
  | IncorrectPin.

#[global] Instance verify_branch_eq_dec : EqDecision verify_branch.
Proof. solve_decision. Defined.

(** The boolean each return site hands back. *)
Definition returned (b : verify_branch) : bool :=
  match b with
  | PinVerified => true
  | _ => false
  end.

(** [verify_pin(email, entered_pin)], keeping track of the return site. *)
Definition verify_pin_traced (now : Z) (email entered_pin : string)
    (st : gmap string pin_entry) : verify_branch * gmap string pin_entry :=
  match st !! email with
  | None => (NoPinFound, st)
  | Some stored_data =>
      if expires_at stored_data <? now then
        (PinExpired, delete email st)
      else if 3 <=? attempts stored_data then
        (TooManyAttempts, delete email st)
      else if String.eqb (pin stored_data) entered_pin then
        (PinVerified, delete email st)
      else
        (IncorrectPin, <[email := bump_attempts stored_data]> st)
  end.

(** [verify_pin] as the caller sees it: a boolean and the updated store. *)
Definition verify_pin (now : Z) (email entered_pin : string)
    (st : gmap string pin_entry) : bool * gmap string pin_entry :=
  let r := verify_pin_traced now email entered_pin st in
  (returned (fst r), snd r).

(** [cleanup_expired_pins()]: every entry with [now > expires_at] goes. *)
Definition cleanup_expired_pins (now : Z)
    (st : gmap string pin_entry) : gmap string pin_entry :=
  filter (fun kv => ~ (expires_at (snd kv) < now)) st.

(** The calls that change [pin_storage], and the states they can produce
    from the empty dictionary the module starts with. *)
Inductive auth_call : Type :=
  | CallStorePin (now : Z) (email code : string)
  | CallVerifyPin (now : Z) (email entered_pin : string)
  | CallCleanup (now : Z).

Definition run_call (c : auth_call)
    (st : gmap string pin_entry) : gmap string pin_entry :=
  match c with
  | CallStorePin now email code => store_pin now email code st
  | CallVerifyPin now email entered_pin =>
      snd (verify_pin now email entered_pin st)
  | CallCleanup now => cleanup_expired_pins now st
  end.

Inductive reachable : gmap string pin_entry -> Prop :=
  | reachable_start : reachable ∅
  | reachable_call st c : reachable st -> reachable (run_call c st).

(** The entries a store holds for one identity, as an item list. *)
Definition entries_for (email : string)
    (st : gmap string pin_entry) : list (string * pin_entry) :=
  filter (fun kv => fst kv = email) (map_to_list st).

(** ** Exceptions and results *)

(** The exception classes that occur.  [ExpiredSignatureError] and
    [JWTClaimsError] are the two subclasses of python-jose's [JWTError];
    [SMTPException] stands for whatever [smtplib] raises while connecting,
    negotiating TLS, logging in or sending. *)
Inductive exn : Type :=
  | JWTError
  | ExpiredSignatureError
  | JWTClaimsError
  | SMTPException (reason : string)
  | HTTPException (status_code : Z) (detail : string)
  | OtherException (name : string).

(** [isinstance(e, JWTError)], which is what [except JWTError] tests. *)
Definition isinstance_JWTError (e : exn) : bool :=
  match e with
  | JWTError | ExpiredSignatureError | JWTClaimsError => true
  | _ => false
  end.

Inductive py_result (A : Type) : Type :=
  | Returns (a : A)
  | Raises (e : exn).
Arguments Returns {A} a.
Arguments Raises {A} e.

(** The Python values found in a token's claims. *)
Inductive pyval : Type :=
  | PyNone
  | PyStr (s : string)
  | PyInt (z : Z)
  | PyDatetime (t : Z).

(** ** What the deployment supplies

    The environment variables read at import time, [str(e)] of the runtime,
    and the two python-jose entry points.  [jwt_decode] reads the clock, so it
    takes the reading as its last argument. *)
Class Deployment : Type := {
  SECRET_KEY : string;
  SMTP_USERNAME : string;
  SMTP_PASSWORD : string;
  exn_str : exn -> string;
  jwt_encode : gmap string pyval -> string -> string -> py_result string;
  jwt_decode : string -> string -> list string -> Z -> py_result (gmap string pyval)
}.

Definition ALGORITHM : string := "HS256".
Definition ACCESS_TOKEN_EXPIRE_MINUTES : Z := 480.

(** ** Delivery ([auth.py], [send_pin_email]) *)

(** What the process can observe besides [pin_storage]: the messages the SMTP
    server accepted and the PINs written to the log in clear. *)
Record world : Type := World {
  pin_storage : gmap string pin_entry;
  outbox : list (string * string);
  pin_log : list (string * string)
}.

Definition set_pin_storage (st : gmap string pin_entry) (w : world) : world :=
  {| pin_storage := st; outbox := outbox w; pin_log := pin_log w |}.

Definition log_pin (email code : string) (w : world) : world :=
  {| pin_storage := pin_storage w;
     outbox := outbox w;
     pin_log := pin_log w ++ [(email, code)] |}.

Definition smtp_accept (email code : string) (w : world) : world :=
  {| pin_storage := pin_storage w;
     outbox := outbox w ++ [(email, code)];
     pin_log := pin_log w |}.

(** How the [with smtplib.SMTP(...)] block ends: it completes; it raises
    before [send_message] has handed the message over (connecting, TLS,
    login, or [send_message] itself); or it raises once the message has been
    handed over, when leaving the block ([QUIT] not answered with 221). *)
Inductive smtp_outcome : Type :=
  | SmtpSent
  | SmtpRaised (reason : string)
  | SmtpRaisedAfterSend (reason : string).

(** Python's [not s] on a string. *)
Definition py_not_str (s : string) : bool :=
  match s with
  | EmptyString => true
  | _ => false
  end.

(** The [try] block of [send_pin_email]. *)
Definition send_pin_email_try `{Deployment} (smtp : smtp_outcome)
    (email code : string) (w : world) : py_result bool * world :=
  if py_not_str SMTP_USERNAME || py_not_str SMTP_PASSWORD then
    (Returns true, log_pin email code w)
  else
    match smtp with
    | SmtpSent => (Returns true, smtp_accept email code w)
    | SmtpRaised reason => (Raises (SMTPException reason), w)
    | SmtpRaisedAfterSend reason =>
        (Raises (SMTPException reason), smtp_accept email code w)
    end.

(** [send_pin_email(email, pin)]: the [try] block under
    [except Exception]. *)
Definition send_pin_email `{Deployment} (smtp : smtp_outcome)
    (email code : string) (w : world) : py_result bool * world :=
  match send_pin_email_try smtp email code w with
  | (Returns b, w') => (Returns b, w')
  | (Raises e, w') => (Returns true, log_pin email code w')
  end.

(** ** The [request_pin] endpoint ([app.py]) *)

Record json_response : Type := JsonResponse {
  success : bool;
  message : string
}.

Definition pin_sent_message (email : string) : string :=
  ("PIN sent to " ++ email ++ ". Please check your email (and spam folder).")%string.

Definition send_failed_detail : string :=
  "Failed to send PIN. Please try again.".

(** The state at the call of [auth.send_pin_email]: expired entries swept,
    the new PIN generated and stored.  [now_sweep] and [now_store] are the
    clock readings of [cleanup_expired_pins] and of [store_pin]. *)
Definition request_pin_stored (now_sweep now_store : Z) (rng : nat -> nat)
    (email : string) (w : world) : world :=
  let st1 := cleanup_expired_pins now_sweep (pin_storage w) in
  let code := generate_pin rng in
  set_pin_storage (store_pin now_store email code st1) w.

(** The [try] block of [request_pin]. *)
Definition request_pin_try `{Deployment} (now_sweep now_store : Z)
    (rng : nat -> nat) (smtp : smtp_outcome) (email : string) (w : world)
    : py_result json_response * world :=
  let code := generate_pin rng in
  let w2 := request_pin_stored now_sweep now_store rng email w in
  match send_pin_email smtp email code w2 with
  | (Returns email_sent, w3) =>
      if email_sent then
        (Returns {| success := true; message := pin_sent_message email |}, w3)
      else
        (Raises (HTTPException 500 send_failed_detail), w3)
  | (Raises e, w3) => (Raises e, w3)
  end.

(** [request_pin(request)]: the [try] block under [except Exception]. *)
Definition request_pin `{Deployment} (now_sweep now_store : Z)
    (rng : nat -> nat) (smtp : smtp_outcome) (email : string) (w : world)
    : py_result json_response * world :=
  match request_pin_try now_sweep now_store rng smtp email w with
  | (Returns r, w') => (Returns r, w')
  | (Raises e, w') => (Raises (HTTPException 500 (exn_str e)), w')
  end.

(** ** Tokens ([auth.py], [create_access_token] and [verify_token]) *)

(** The dictionary handed to [jwt.encode]; [now] is [datetime.utcnow()]. *)
Definition token_data (now : Z) (email : string) : gmap string pyval :=
  let expire := now + timedelta_minutes ACCESS_TOKEN_EXPIRE_MINUTES in
  <["exp" := PyDatetime expire]> (<["sub" := PyStr email]> ∅).

Definition create_access_token `{Deployment} (now : Z) (email : string)
    : py_result string :=
  jwt_encode (token_data now email) SECRET_KEY ALGORITHM.

(** [payload.get(key)]. *)
Definition py_get (payload : gmap string pyval) (key : string) : pyval :=
  match payload !! key with
  | Some v => v
  | None => PyNone
  end.

(** [verify_token(token)]; [now] is the clock reading of [jwt.decode]. *)
Definition verify_token `{Deployment} (now : Z) (token : string)
    : py_result pyval :=
  match jwt_decode token SECRET_KEY [ALGORITHM] now with
  | Returns payload =>
      let email := py_get payload "sub" in
      match email with
      | PyNone => Returns PyNone
      | _ => Returns email
      end
  | Raises e =>
      if isinstance_JWTError e then Returns PyNone else Raises e
  end.

(** ** What python-jose promises

    The two facts about [jose.jwt] that the token wrapper relies on, for the
    claims [create_access_token] builds: encoding returns a token, and
    decoding that token with the same key and algorithm, at a clock reading
    that is not past [exp], returns claims with the same subject. *)
Record jose_contract `{Deployment} : Prop := {
  jose_encode_returns : forall key email t,
    exists tok,
      jwt_encode (<["exp" := PyDatetime t]> (<["sub" := PyStr email]> ∅))
        key ALGORITHM = Returns tok;
  jose_decode_encode : forall key email t tok now,
    jwt_encode (<["exp" := PyDatetime t]> (<["sub" := PyStr email]> ∅))
      key ALGORITHM = Returns tok ->
    now <= t ->
    exists payload,
      jwt_decode tok key [ALGORITHM] now = Returns payload /\
      payload !! "sub" = Some (PyStr email)
}.

(** The ways a token can be invalid, and the exception [jwt.decode] is
    documented to raise for each. *)
Inductive token_fault : Type :=
  | Malformed
  | BadSignature
  | Expired.

Definition jose_raises (f : token_fault) : exn :=
  match f with
  | Malformed => JWTError
  | BadSignature => JWTError
  | Expired => ExpiredSignatureError
  end.

(** ** A sample deployment

    A small, runnable instance of [Deployment]: a token is the binary
    numeral of the code of (subject, expiry, key); decoding checks the key,
    then the expiry. *)
Fixpoint bits_of_pos (p : positive) : string :=
  match p with
  | xH => EmptyString
  | xO q => String "0" (bits_of_pos q)
  | xI q => String "1" (bits_of_pos q)
  end.

Fixpoint pos_of_bits (s : string) : option positive :=
  match s with
  | EmptyString => Some xH
  | String c r =>
      match pos_of_bits r with
      | Some q =>
          if Ascii.eqb c "0" then Some (xO q)
          else if Ascii.eqb c "1" then Some (xI q)
          else None
      | None => None
      end
  end.

Definition claim_sub (claims : gmap string pyval) : option string :=
  match claims !! "sub" with
  | Some (PyStr s) => Some s
  | _ => None
  end.

Definition sample_encode (claims : gmap string pyval) (key alg : string)
    : py_result string :=
  match claims !! "exp" with
  | Some (PyDatetime t) =>
      Returns (bits_of_pos (encode (claim_sub claims, t, key)))
  | _ => Raises (OtherException "TypeError")
  end.

Definition sample_payload (sub : option string) (t : Z) : gmap string pyval :=
  <["exp" := PyInt t]>
    (match sub with
     | Some s => <["sub" := PyStr s]> ∅
     | None => ∅
     end).

Definition sample_decode (token key : string) (algorithms : list string)
    (now : Z) : py_result (gmap string pyval) :=
  match pos_of_bits token ≫= decode (A := option string * Z * string) with
  | Some (sub, t, k) =>
      if String.eqb k key then
        if t <? now then Raises ExpiredSignatureError
        else Returns (sample_payload sub t)
      else Raises JWTError
  | None => Raises JWTError
  end.

Definition sample_str (e : exn) : string :=
  match e with
  | JWTError => "JWTError"
  | ExpiredSignatureError => "Signature has expired."
  | JWTClaimsError => "JWTClaimsError"
  | SMTPException reason => reason
  | HTTPException _ detail => detail
  | OtherException name => name
  end.

Definition sample_deployment (user password : string) : Deployment :=
  {| SECRET_KEY := "your-secret-key-change-this-in-production";
     SMTP_USERNAME := user;
     SMTP_PASSWORD := password;
     exn_str := sample_str;
     jwt_encode := sample_encode;
     jwt_decode := sample_decode |}.

(** No SMTP credentials: the development set-up. *)
Definition dev_deployment : Deployment := sample_deployment "" "".

(** SMTP credentials present. *)
Definition mail_deployment : Deployment :=
  sample_deployment "noreply@x.com" "app-password".

(** ** [request_pin], statement by statement

    The three statements of the [try] block of [request_pin] that act on the
    world, in the order of the source: [auth.cleanup_expired_pins()]
    (app.py line 257), [auth.store_pin(request.email, pin)] (line 263) and
    [auth.send_pin_email(request.email, pin)] (line 266). *)
Inductive request_statement : Type :=
  | DoCleanup (now : Z)
  | DoStorePin (now : Z) (email code : string)
  | DoSendPinEmail (smtp : smtp_outcome) (email code : string).


(** What one statement does to the world. *)
Definition perform `{Deployment} (s : request_statement) (w : world) : world :=
  match s with
  | DoCleanup now =>
      set_pin_storage (cleanup_expired_pins now (pin_storage w)) w
  | DoStorePin now email code =>
      set_pin_storage (store_pin now email code (pin_storage w)) w
  | DoSendPinEmail smtp email code => snd (send_pin_email smtp email code w)
  end.


(** The statements run in order, each paired with the world it starts in. *)
Fixpoint journal `{Deployment} (ss : list request_statement) (w : world)
    : list (request_statement * world) :=
  match ss with
  | [] => []
  | s :: rest => (s, w) :: journal rest (perform s w)
  end.

(** ** What python-jose does with the expiry

    [jwt.encode] writes a datetime [exp] claim as whole POSIX seconds
    ([timegm(exp.utctimetuple())]).  [jwt.decode] reads the clock in whole
    seconds too: while the clock has not passed [exp] it returns the claims
    as they were written; once it has, it raises
    [ExpiredSignatureError]. *)
Definition posix_seconds (t : Z) : Z := t / 1000000.

Record jose_expiry_contract `{Deployment} : Prop := {
  jose_exp_encode_returns : forall key email t,
    exists tok,
      jwt_encode (<["exp" := PyDatetime t]> (<["sub" := PyStr email]> ∅))
        key ALGORITHM = Returns tok;
  jose_exp_accepts : forall key email t tok now,
    jwt_encode (<["exp" := PyDatetime t]> (<["sub" := PyStr email]> ∅))
      key ALGORITHM = Returns tok ->
    posix_seconds now <= posix_seconds t ->
    exists payload,
      jwt_decode tok key [ALGORITHM] now = Returns payload /\
      payload !! "sub" = Some (PyStr email) /\
      payload !! "exp" = Some (PyInt (posix_seconds t));
  jose_exp_rejects : forall key email t tok now,
    jwt_encode (<["exp" := PyDatetime t]> (<["sub" := PyStr email]> ∅))
      key ALGORITHM = Returns tok ->
    posix_seconds t < posix_seconds now ->
    jwt_decode tok key [ALGORITHM] now = Raises ExpiredSignatureError
}.

(** A runnable deployment that keeps this contract: the sample token
    format, with the expiry written and the clock read in whole seconds. *)
Definition posix_encode (claims : gmap string pyval) (key alg : string)
    : py_result string :=
  match claims !! "exp" with
  | Some (PyDatetime t) =>
      Returns (bits_of_pos (encode (claim_sub claims, posix_seconds t, key)))
  | _ => Raises (OtherException "TypeError")
  end.

Definition posix_decode (token key : string) (algorithms : list string)
    (now : Z) : py_result (gmap string pyval) :=
  sample_decode token key algorithms (posix_seconds now).

Definition posix_deployment : Deployment :=
  {| SECRET_KEY := "your-secret-key-change-this-in-production";
     SMTP_USERNAME := "";
     SMTP_PASSWORD := "";
     exn_str := sample_str;
     jwt_encode := posix_encode;
     jwt_decode := posix_decode |}.

(** ** The verification policy, as a relation

    The five rules of the design document, tried in order; the function
    [verify_pin_traced] above is compared with them below. *)
Inductive verify_spec (now : Z) (email submitted : string)
    (st : gmap string pin_entry)
    : verify_branch -> gmap string pin_entry -> Prop :=
  | spec_not_found :
      st !! email = None ->
      verify_spec now email submitted st NoPinFound st
  | spec_expired e :
      st !! email = Some e ->
      now > expires_at e ->
      verify_spec now email submitted st PinExpired (delete email st)
  | spec_too_many_attempts e :
      st !! email = Some e ->
      ~ now > expires_at e ->
      attempts e >= 3 ->
      verify_spec now email submitted st TooManyAttempts (delete email st)
  | spec_success e :
      st !! email = Some e ->
      ~ now > expires_at e ->
      ~ attempts e >= 3 ->
      pin e = submitted ->
      verify_spec now email submitted st PinVerified (delete email st)
  | spec_mismatch e :
      st !! email = Some e ->
      ~ now > expires_at e ->
      ~ attempts e >= 3 ->
      pin e <> submitted ->
      verify_spec now email submitted st IncorrectPin
        (<[email := {| pin := pin e;
                       expires_at := expires_at e;
                       attempts := attempts e + 1 |}]> st).

(** Every recorded failure count lies between 0 and 3. *)
Definition attempts_bounded (st : gmap string pin_entry) : Prop :=
  forall email e, st !! email = Some e -> 0 <= attempts e <= 3.

(** ** Python string helpers used by [app.py]

    A header value reaches the application decoded as Latin-1, so a
    character is a code point below 256. *)

(** [c.isspace()]: tab to carriage return, the four separators 28..31,
    space, NEL (133) and the no-break space (160). *)
Definition py_isspace (c : ascii) : bool :=
  let n := nat_of_ascii c in
  ((9 <=? n) && (n <=? 13) || (28 <=? n) && (n <=? 32)
   || (n =? 133) || (n =? 160))%nat.

(** [s.split()]: the maximal runs of non-space characters, in order;
    [word] is the run being read. *)
Fixpoint py_split_from (word : string) (s : string) : list string :=
  match s with
  | EmptyString =>
      match word with
      | EmptyString => []
      | _ => [word]
      end
  | String c r =>
      if py_isspace c then
        match word with
        | EmptyString => py_split_from EmptyString r
        | _ => word :: py_split_from EmptyString r
        end
      else py_split_from (word ++ String c EmptyString) r
  end.

Definition py_split (s : string) : list string := py_split_from EmptyString s.

(** [c.lower()] below code point 256: A..Z and the accented capitals
    192..222 (the multiplication sign 215 apart) move up by 32. *)
Definition py_lower_char (c : ascii) : ascii :=
  let n := nat_of_ascii c in
  if ((65 <=? n) && (n <=? 90)
      || (192 <=? n) && (n <=? 222) && negb (n =? 215))%nat
  then ascii_of_nat (n + 32)
  else c.

Fixpoint py_lower (s : string) : string :=
  match s with
  | EmptyString => EmptyString
  | String c r => String (py_lower_char c) (py_lower r)
  end.

(** Truth value of a Python value, as [if not email] tests it. *)
Definition py_truthy (v : pyval) : bool :=
  match v with
  | PyNone => false
  | PyStr s => negb (py_not_str s)
  | PyInt z => negb (z =? 0)
  | PyDatetime _ => true
  end.

(** Strings without, and strings made only of, white space. *)
Fixpoint has_no_space (s : string) : bool :=
  match s with
  | EmptyString => true
  | String c r => negb (py_isspace c) && has_no_space r
  end.

Fixpoint all_space (s : string) : bool :=
  match s with
  | EmptyString => true
  | String c r => py_isspace c && all_space r
  end.

(** ** The authentication dependency ([app.py], [get_current_user]) *)

Definition not_authenticated : exn :=
  HTTPException 401 "Not authenticated. Please login first.".

Definition invalid_format : exn :=
  HTTPException 401 "Invalid authentication format".

Definition invalid_token : exn :=
  HTTPException 401 "Invalid or expired token. Please login again.".

(** [get_current_user(authorization)]; [None] is the absent header and
    [now] the clock reading of [jwt.decode]. *)
Definition get_current_user `{Deployment} (now : Z)
    (authorization : option string) : py_result pyval :=
  match authorization with
  | None => Raises not_authenticated
  | Some header =>
      if py_not_str header then Raises not_authenticated
      else
        match py_split header with
        | [scheme; token] =>
            if String.eqb (py_lower scheme) "bearer" then
              match verify_token now token with
              | Returns email =>
                  if py_truthy email then Returns email
                  else Raises invalid_token
              | Raises e => Raises e
              end
            else Raises invalid_format
        | _ => Raises invalid_format
        end
  end.

(** ** The [verify_pin] endpoint ([app.py]) *)

Record login_response : Type := LoginResponse {
  login_success : bool;
  login_message : string;
  access_token : string;
  token_type : string;
  login_email : string
}.

Definition invalid_pin : exn :=
  HTTPException 401 "Invalid or expired PIN. Please request a new PIN.".

Definition isinstance_HTTPException (e : exn) : bool :=
  match e with
  | HTTPException _ _ => true
  | _ => false
  end.

(** The endpoint [verify_pin(request)] of [app.py]: [now_pin] is the clock
    reading of [auth.verify_pin], [now_token] that of
    [auth.create_access_token]. *)
Definition app_verify_pin `{Deployment} (now_pin now_token : Z)
    (email entered_pin : string) (w : world)
    : py_result login_response * world :=
  let r := verify_pin now_pin email entered_pin (pin_storage w) in
  let w' := set_pin_storage (snd r) w in
  if fst r then
    match create_access_token now_token email with
    | Returns token =>
        (Returns {| login_success := true;
                    login_message := "Login successful!";
                    access_token := token;
                    token_type := "bearer";
                    login_email := email |}, w')
    | Raises e =>
        if isinstance_HTTPException e then (Raises e, w')
        else (Raises (HTTPException 500 (exn_str e)), w')
    end
  else (Raises invalid_pin, w').

(** ** Sequences of calls on the store *)

Definition run_calls (cs : list auth_call)
    (st : gmap string pin_entry) : gmap string pin_entry :=
  fold_left (fun s c => run_call c s) cs st.

(** Does the call compare a submitted code with the PIN stored for
    [email]?  Those are the calls that end at the verified or at the
    incorrect-PIN site. *)
Definition compares_code (email : string) (c : auth_call)
    (st : gmap string pin_entry) : bool :=
  match c with
  | CallVerifyPin now e entered =>
      String.eqb e email &&
      match fst (verify_pin_traced now e entered st) with
      | PinVerified | IncorrectPin => true
      | _ => false
      end
  | _ => false
  end.

Fixpoint count_compares (email : string) (cs : list auth_call)
    (st : gmap string pin_entry) : nat :=
  match cs with
  | [] => 0%nat
  | c :: rest =>
      ((if compares_code email c st then 1 else 0)
       + count_compares email rest (run_call c st))%nat
  end.

(** Is the call a [store_pin] for [email]? *)
Definition stores_for (email : string) (c : auth_call) : bool :=
  match c with
  | CallStorePin _ e _ => String.eqb e email
  | _ => false
  end.

(** A string of exactly six decimal digits. *)
Definition is_digit (c : ascii) : bool :=
  let n := nat_of_ascii c in ((48 <=? n) && (n <=? 57))%nat.

Definition six_digits (s : string) : bool :=
  (String.length s =? 6)%nat && forallb is_digit (list_ascii_of_string s).

(** The number of code comparisons the entry of [email] still allows. *)
Definition guess_budget (email : string) (st : gmap string pin_entry) : nat :=
  match st !! email with
  | Some e => Z.to_nat (3 - attempts e)
  | None => 0%nat
  end.

(** The shape of a token as python-jose serialises it: base64url segments
    joined by dots, so never empty and never with white space in it. *)
Definition jose_token_format `{Deployment} : Prop :=
  forall claims key alg tok,
    jwt_encode claims key alg = Returns tok ->
    has_no_space tok = true /\ py_not_str tok = false.

(** ** The states the two login endpoints produce

    Starting from an empty store with nothing mailed or logged, any number
    of [request_pin] and [verify_pin] requests, with any inputs. *)
Inductive served `{Deployment} : world -> Prop :=
  | served_start :
      served {| pin_storage := ∅; outbox := []; pin_log := [] |}
  | served_request_pin w now_sweep now_store rng smtp email :
      served w ->
      served (snd (request_pin now_sweep now_store rng smtp email w))
  | served_verify_pin w now_pin now_token email entered_pin :
      served w ->
      served (snd (app_verify_pin now_pin now_token email entered_pin w)).

(** ** Employee routes ([app.py])

    The routes talk to two collaborators that are not part of the program:
    the blob store, reached over HTTP by [upload_to_vercel_blob], and the
    database, reached through the functions of [db.py].  What a collaborator
    answers is an input; what the routes ask of them, and in which order, is
    recorded in a list of calls. *)

(** What [response.json()] gives: a JSON object, or any other JSON value. *)
Inductive json_body : Type :=
  | JsonObject (fields : gmap string pyval)
  | JsonOther.

(** The fate of one upload: reading the file or the HTTP exchange raises, or
    the store answers with a status code and a body ([response.json()] may
    itself raise). *)
Inductive blob_reply : Type :=
  | BlobRaised (e : exn)
  | BlobAnswered (status_code : Z) (body : py_result json_body).

(** An [UploadFile]: its name, and what uploading it will meet. *)
Record upload_file : Type := UploadFile {
  filename : option string;
  blob : blob_reply
}.

(** [upload_to_vercel_blob(file, token)]; the [except Exception] clause logs
    and re-raises. *)
Definition upload_to_vercel_blob (file : upload_file) : py_result pyval :=
  match blob file with
  | BlobRaised e => Raises e
  | BlobAnswered status_code body =>
      if negb (status_code =? 200) then
        Raises (HTTPException 500 "File upload failed")
      else
        match body with
        | Raises e => Raises e
        | Returns JsonOther => Raises (OtherException "AttributeError")
        | Returns (JsonObject fields) =>
            Returns (match fields !! "url" with
                     | Some v => v
                     | None => PyStr ""
                     end)
        end
  end.

(** The dictionary [employee_data] built by the create and update routes. *)
Record employee_data : Type := EmployeeData {
  ed_name : string;
  ed_email : string;
  ed_position : option string;
  ed_department : option string;
  ed_picture_url : pyval;
  ed_resume_url : pyval
}.

(** The functions of [db.py], as the routes see them: rows are dictionaries,
    [get_employee] and [update_employee] give [None] for an unknown id,
    [delete_employee] gives [False]. *)
Class Database : Type := {
  db_create_employee : employee_data -> py_result (gmap string pyval);
  db_get_all_employees : py_result (list (gmap string pyval));
  db_get_employee : Z -> py_result (option (gmap string pyval));
  db_update_employee :
    Z -> employee_data -> py_result (option (gmap string pyval));
  db_delete_employee : Z -> py_result bool
}.

(** The calls a route makes: of [upload_to_vercel_blob] and of the
    functions of [db.py]. *)
Inductive backend_call : Type :=
  | Upload (file : upload_file)
  | DbCreate (data : employee_data)
  | DbGetAll
  | DbGet (employee_id : Z)
  | DbUpdate (employee_id : Z) (data : employee_data)
  | DbDelete (employee_id : Z).

(** [picture and picture.filename]: the file when the test is true. *)
Definition file_given (file : option upload_file) : option upload_file :=
  match file with
  | Some f =>
      match filename f with
      | Some name => if py_not_str name then None else Some f
      | None => None
      end
  | None => None
  end.

(** [url = None], then the upload when a file is given. *)
Definition upload_if_given (file : option upload_file)
    : py_result pyval * list backend_call :=
  match file_given file with
  | Some f => (upload_to_vercel_blob f, [Upload f])
  | None => (Returns PyNone, [])
  end.

(** [not employee] for a row or [None]: an empty dictionary is false too. *)
Definition py_not_row (employee : option (gmap string pyval)) : bool :=
  match employee with
  | Some row => bool_decide (row = ∅)
  | None => true
  end.

Definition employee_not_found : exn := HTTPException 404 "Employee not found".

(** [except HTTPException: raise] followed by
    [except Exception as e: raise HTTPException(status, str(e))]. *)
Definition reraise `{Deployment} (status : Z) (e : exn) : exn :=
  if isinstance_HTTPException e then e
  else HTTPException status (exn_str e).

(** The body of [create_employee]. *)
Definition create_employee `{Deployment} `{Database}
    (name email : string) (position department : option string)
    (picture resume : option upload_file)
    : py_result (gmap string pyval) * list backend_call :=
  match upload_if_given picture with
  | (Raises e, t1) => (Raises (HTTPException 400 (exn_str e)), t1)
  | (Returns picture_url, t1) =>
      match upload_if_given resume with
      | (Raises e, t2) => (Raises (HTTPException 400 (exn_str e)), t1 ++ t2)
      | (Returns resume_url, t2) =>
          let data := {| ed_name := name; ed_email := email;
                         ed_position := position;
                         ed_department := department;
                         ed_picture_url := picture_url;
                         ed_resume_url := resume_url |} in
          let t3 := t1 ++ t2 ++ [DbCreate data] in
          match db_create_employee data with
          | Raises e => (Raises (HTTPException 400 (exn_str e)), t3)
          | Returns employee =>
              match employee !! "id" with
              | Some _ => (Returns employee, t3)
              | None =>
                  (Raises (HTTPException 400
                             (exn_str (OtherException "KeyError"))), t3)
              end
          end
      end
  end.

(** The body of [get_employees]. *)
Definition get_employees `{Deployment} `{Database}
    : py_result (list (gmap string pyval)) * list backend_call :=
  match db_get_all_employees with
  | Returns employees => (Returns employees, [DbGetAll])
  | Raises e => (Raises (HTTPException 500 (exn_str e)), [DbGetAll])
  end.

(** The body of [get_employee]. *)
Definition get_employee `{Deployment} `{Database} (employee_id : Z)
    : py_result (gmap string pyval) * list backend_call :=
  match db_get_employee employee_id with
  | Returns employee =>
      match employee with
      | Some row =>
          if py_not_row employee then
            (Raises employee_not_found, [DbGet employee_id])
          else
            match row !! "name" with
            | Some _ => (Returns row, [DbGet employee_id])
            | None =>
                (Raises (HTTPException 500
                           (exn_str (OtherException "KeyError"))),
                 [DbGet employee_id])
            end
      | None => (Raises employee_not_found, [DbGet employee_id])
      end
  | Raises e => (Raises (reraise 500 e), [DbGet employee_id])
  end.

(** The body of [update_employee]. *)
Definition update_employee `{Deployment} `{Database} (employee_id : Z)
    (name email : string) (position department : option string)
    (picture resume : option upload_file)
    : py_result (gmap string pyval) * list backend_call :=
  match upload_if_given picture with
  | (Raises e, t1) => (Raises (reraise 400 e), t1)
  | (Returns picture_url, t1) =>
      match upload_if_given resume with
      | (Raises e, t2) => (Raises (reraise 400 e), t1 ++ t2)
      | (Returns resume_url, t2) =>
          let data := {| ed_name := name; ed_email := email;
                         ed_position := position;
                         ed_department := department;
                         ed_picture_url := picture_url;
                         ed_resume_url := resume_url |} in
          let t3 := t1 ++ t2 ++ [DbUpdate employee_id data] in
          match db_update_employee employee_id data with
          | Raises e => (Raises (reraise 400 e), t3)
          | Returns employee =>
              match employee with
              | Some row =>
                  if py_not_row employee then (Raises employee_not_found, t3)
                  else (Returns row, t3)
              | None => (Raises employee_not_found, t3)
              end
          end
      end
  end.

(** The body of [delete_employee]; the value returned is the dictionary
    with the one key [message]. *)
Definition delete_employee `{Deployment} `{Database} (employee_id : Z)
    : py_result string * list backend_call :=
  match db_delete_employee employee_id with
  | Returns success =>
      if success then
        (Returns "Employee deleted successfully"%string,
         [DbDelete employee_id])
      else (Raises employee_not_found, [DbDelete employee_id])
  | Raises e => (Raises (reraise 500 e), [DbDelete employee_id])
  end.

(** A database for running the routes: one employee, with id 1. *)
Definition sample_row (name email : string) : gmap string pyval :=
  <["id" := PyInt 1]> (<["name" := PyStr name]> (<["email" := PyStr email]> ∅)).

Definition sample_database : Database :=
  {| db_create_employee data :=
       Returns (sample_row (ed_name data) (ed_email data));
     db_get_all_employees := Returns [sample_row "Ada" "ada@x.com"];
     db_get_employee employee_id :=
       if employee_id =? 1 then Returns (Some (sample_row "Ada" "ada@x.com"))
       else Returns None;
     db_update_employee employee_id data :=
       if employee_id =? 1
       then Returns (Some (sample_row (ed_name data) (ed_email data)))
       else Returns None;
     db_delete_employee employee_id := Returns (employee_id =? 1) |}.

(** * Properties *)

(** ** The embedding on concrete inputs *)

Example generate_pin_example :
  generate_pin (fun i => (i + 4) * 7)%nat = "852963"%string.
Proof. reflexivity. Qed.

Example verify_demo :
  fst (verify_pin_traced 5 "a@x.com" "000000" (store_pin 0 "a@x.com" "481920" ∅))
  = IncorrectPin.
Proof. vm_compute. reflexivity. Qed.

(** ** The return sites of [verify_pin], one lemma each *)

Section VerifyPinBranches.
Variables (now : Z) (email entered_pin : string).
Variable st : gmap string pin_entry.

Lemma verify_pin_no_entry :
  st !! email = None ->
  verify_pin_traced now email entered_pin st = (NoPinFound, st).
Proof. intros H. unfold verify_pin_traced. now rewrite H. Qed.

Lemma verify_pin_expired stored_data :
  st !! email = Some stored_data ->
  now > expires_at stored_data ->
  verify_pin_traced now email entered_pin st = (PinExpired, delete email st).
Proof.
  intros H Hexp. unfold verify_pin_traced. rewrite H.
  destruct (Z.ltb_spec (expires_at stored_data) now); [reflexivity | lia].
Qed.

Lemma verify_pin_exhausted stored_data :
  st !! email = Some stored_data ->
  ~ now > expires_at stored_data ->
  attempts stored_data >= 3 ->
  verify_pin_traced now email entered_pin st
  = (TooManyAttempts, delete email st).
Proof.
  intros H Hexp Hatt. unfold verify_pin_traced. rewrite H.
  destruct (Z.ltb_spec (expires_at stored_data) now); [lia |].
  destruct (Z.leb_spec 3 (attempts stored_data)); [reflexivity | lia].
Qed.

Lemma verify_pin_match stored_data :
  st !! email = Some stored_data ->
  ~ now > expires_at stored_data ->
  ~ attempts stored_data >= 3 ->
  pin stored_data = entered_pin ->
  verify_pin_traced now email entered_pin st = (PinVerified, delete email st).
Proof.
  intros H Hexp Hatt Hpin. unfold verify_pin_traced. rewrite H.
  destruct (Z.ltb_spec (expires_at stored_data) now); [lia |].
  destruct (Z.leb_spec 3 (attempts stored_data)); [lia |].
  apply String.eqb_eq in Hpin. now rewrite Hpin.
Qed.

Lemma verify_pin_mismatch stored_data :
  st !! email = Some stored_data ->
  ~ now > expires_at stored_data ->
  ~ attempts stored_data >= 3 ->
  pin stored_data <> entered_pin ->
  verify_pin_traced now email entered_pin st
  = (IncorrectPin, <[email := bump_attempts stored_data]> st).
Proof.
  intros H Hexp Hatt Hpin. unfold verify_pin_traced. rewrite H.
  destruct (Z.ltb_spec (expires_at stored_data) now); [lia |].
  destruct (Z.leb_spec 3 (attempts stored_data)); [lia |].
  apply String.eqb_neq in Hpin. now rewrite Hpin.
Qed.
End VerifyPinBranches.

Lemma verify_pin_meets_spec now email submitted st :
  verify_spec now email submitted st
    (fst (verify_pin_traced now email submitted st))
    (snd (verify_pin_traced now email submitted st)).
Proof.
  destruct (st !! email) as [e|] eqn:He.
  - destruct (decide (now > expires_at e)) as [Hexp|Hexp].
    { rewrite (verify_pin_expired _ _ _ _ e He Hexp). by eapply spec_expired. }
    destruct (decide (attempts e >= 3)) as [Hatt|Hatt].
    { rewrite (verify_pin_exhausted _ _ _ _ e He Hexp Hatt).
      by eapply spec_too_many_attempts. }
    destruct (decide (pin e = submitted)) as [Hpin|Hpin].
    { rewrite (verify_pin_match _ _ _ _ e He Hexp Hatt Hpin).
      by eapply spec_success. }
    rewrite (verify_pin_mismatch _ _ _ _ e He Hexp Hatt Hpin).
    by eapply spec_mismatch.
  - rewrite (verify_pin_no_entry _ _ _ _ He). by apply spec_not_found.
Qed.

Lemma verify_spec_functional now email submitted st b st' :
  verify_spec now email submitted st b st' ->
  verify_pin_traced now email submitted st = (b, st').
Proof.
  intros Hspec. destruct Hspec.
  - by apply verify_pin_no_entry.
  - by eapply verify_pin_expired.
  - by eapply verify_pin_exhausted.
  - by eapply verify_pin_match.
  - by erewrite verify_pin_mismatch.
Qed.

(** C1.  One call of [verify_pin] does exactly what the five ordered rules
    say and nothing else: its return site and the store it leaves are the
    ones the rules determine (no entry: not found, store untouched; expired:
    entry deleted; three or more attempts: entry deleted; codes equal: entry
    deleted, success; otherwise attempts goes up by one and the entry
    stays), and the boolean handed back is true only at the success site. *)
Theorem verify_pin_follows_the_five_rules :
  forall now email submitted st b st',
    (verify_pin_traced now email submitted st = (b, st')
     <-> verify_spec now email submitted st b st')
    /\ fst (verify_pin now email submitted st)
       = bool_decide (fst (verify_pin_traced now email submitted st) = PinVerified)
    /\ snd (verify_pin now email submitted st)
       = snd (verify_pin_traced now email submitted st).
Proof.
  intros now email submitted st b st'. split; [split|split].
  - intros Heq. pose proof (verify_pin_meets_spec now email submitted st) as H.
    by rewrite Heq in H.
  - apply verify_spec_functional.
  - unfold verify_pin. simpl.
    by destruct (fst (verify_pin_traced now email submitted st)).
  - reflexivity.
Qed.

(** ** Wrong codes in a row *)

Lemma store_pin_lookup now email code st :
  store_pin now email code st !! email
  = Some {| pin := code;
            expires_at := now + timedelta_minutes 10;
            attempts := 0 |}.
Proof. unfold store_pin. apply lookup_insert_eq. Qed.

(** A wrong code on a live entry with fewer than three recorded failures:
    the entry stays, with one more failure. *)
Lemma wrong_code_step now email wrong st e :
  st !! email = Some e ->
  now <= expires_at e ->
  attempts e < 3 ->
  pin e <> wrong ->
  verify_pin_traced now email wrong st
  = (IncorrectPin, <[email := bump_attempts e]> st).
Proof. intros. apply verify_pin_mismatch; [done | lia | lia | done]. Qed.

(** With three recorded failures the next call deletes the entry, whatever
    code it carries. *)
Lemma lockout_step now email any st e :
  st !! email = Some e ->
  now <= expires_at e ->
  attempts e >= 3 ->
  verify_pin_traced now email any st = (TooManyAttempts, delete email st).
Proof. intros. eapply verify_pin_exhausted; [done | lia | done]. Qed.

(** The claim of the design document, tried on [a@x.com] with PIN 481920
    issued at time 0: the third wrong code is answered at the
    incorrect-PIN site, not the too-many-attempts one, and the entry is
    still there for the fourth call, which is therefore not answered at the
    not-found site. *)
Lemma third_wrong_code_is_a_mismatch :
  let s0 := store_pin 0 "a@x.com" "481920" ∅ in
  let r1 := verify_pin_traced 1 "a@x.com" "000000" s0 in
  let r2 := verify_pin_traced 2 "a@x.com" "111111" (snd r1) in
  let r3 := verify_pin_traced 3 "a@x.com" "222222" (snd r2) in
  let r4 := verify_pin_traced 4 "a@x.com" "481920" (snd r3) in
  fst r1 = IncorrectPin /\ fst r2 = IncorrectPin /\
  fst r3 = IncorrectPin /\ fst r3 <> TooManyAttempts /\
  snd r3 !! "a@x.com"
    = Some {| pin := "481920"; expires_at := 600000000; attempts := 3 |} /\
  fst r4 = TooManyAttempts /\ fst r4 <> NoPinFound.
Proof. vm_compute. repeat split; congruence. Qed.

(** C2, as the code has it.  After a PIN is stored for an identity, three
    consecutive calls with wrong codes before expiry are each answered at
    the incorrect-PIN site; a fourth call before expiry, with any code, the
    right one included, is answered at the too-many-attempts site and
    deletes the entry; a fifth call finds nothing.  All five hand back
    false. *)
Theorem three_wrong_codes_then_lockout :
  forall now email code st t1 t2 t3 t4 t5 w1 w2 w3 c4 c5,
    w1 <> code -> w2 <> code -> w3 <> code ->
    t1 <= now + timedelta_minutes 10 ->
    t2 <= now + timedelta_minutes 10 ->
    t3 <= now + timedelta_minutes 10 ->
    t4 <= now + timedelta_minutes 10 ->
    let s0 := store_pin now email code st in
    let r1 := verify_pin_traced t1 email w1 s0 in
    let r2 := verify_pin_traced t2 email w2 (snd r1) in
    let r3 := verify_pin_traced t3 email w3 (snd r2) in
    let r4 := verify_pin_traced t4 email c4 (snd r3) in
    let r5 := verify_pin_traced t5 email c5 (snd r4) in
    map fst [r1; r2; r3; r4; r5]
    = [IncorrectPin; IncorrectPin; IncorrectPin; TooManyAttempts; NoPinFound]
    /\ map (fun r => returned (fst r)) [r1; r2; r3; r4; r5]
       = [false; false; false; false; false]
    /\ snd r5 !! email = None.
Proof.
  intros now email code st t1 t2 t3 t4 t5 w1 w2 w3 c4 c5
    Hw1 Hw2 Hw3 Ht1 Ht2 Ht3 Ht4 s0 r1 r2 r3 r4 r5.
  set (e0 := {| pin := code; expires_at := now + timedelta_minutes 10;
                attempts := 0 |}).
  assert (H1 : r1 = (IncorrectPin, <[email := bump_attempts e0]> s0)).
  { apply wrong_code_step; simpl; try lia; try done.
    apply store_pin_lookup. }
  assert (H2 : r2 = (IncorrectPin,
                     <[email := bump_attempts (bump_attempts e0)]> (snd r1))).
  { apply wrong_code_step; simpl; try lia; try done.
    rewrite H1. apply lookup_insert_eq. }
  assert (H3 : r3 = (IncorrectPin,
      <[email := bump_attempts (bump_attempts (bump_attempts e0))]> (snd r2))).
  { apply wrong_code_step; simpl; try lia; try done.
    rewrite H2. apply lookup_insert_eq. }
  assert (H4 : r4 = (TooManyAttempts, delete email (snd r3))).
  { eapply lockout_step.
    - rewrite H3. apply lookup_insert_eq.
    - simpl. lia.
    - simpl. lia. }
  assert (H5 : r5 = (NoPinFound, snd r4)).
  { apply verify_pin_no_entry. rewrite H4. apply lookup_delete_eq. }
  split; [|split].
  - simpl. by rewrite H1, H2, H3, H4, H5.
  - simpl. by rewrite H1, H2, H3, H4, H5.
  - rewrite H5. simpl. rewrite H4. apply lookup_delete_eq.
Qed.

Lemma three_wrong_codes_then_lockout_witness :
  ("000000" <> "481920" /\ "111111" <> "481920" /\ "222222" <> "481920")%string /\
  (1 <= 0 + timedelta_minutes 10 /\ 2 <= 0 + timedelta_minutes 10 /\
   3 <= 0 + timedelta_minutes 10 /\ 4 <= 0 + timedelta_minutes 10) /\
  let s0 := store_pin 0 "a@x.com" "481920" ∅ in
  let r1 := verify_pin_traced 1 "a@x.com" "000000" s0 in
  let r2 := verify_pin_traced 2 "a@x.com" "111111" (snd r1) in
  let r3 := verify_pin_traced 3 "a@x.com" "222222" (snd r2) in
  let r4 := verify_pin_traced 4 "a@x.com" "481920" (snd r3) in
  let r5 := verify_pin_traced 5 "a@x.com" "481920" (snd r4) in
  map fst [r1; r2; r3; r4; r5]
  = [IncorrectPin; IncorrectPin; IncorrectPin; TooManyAttempts; NoPinFound]
  /\ map (fun r => returned (fst r)) [r1; r2; r3; r4; r5]
     = [false; false; false; false; false]
  /\ snd r5 !! "a@x.com" = None.
Proof.
  split; [repeat split; discriminate |].
  split; [unfold timedelta_minutes; lia |].
  apply (three_wrong_codes_then_lockout 0 "a@x.com" "481920" ∅ 1 2 3 4 5
           "000000" "111111" "222222" "481920" "481920");
    try discriminate; unfold timedelta_minutes; lia.
Defined.

(** ** Invariants of the store *)

Lemma attempts_bounded_empty : attempts_bounded ∅.
Proof. intros email e H. by rewrite lookup_empty in H. Qed.

Lemma attempts_bounded_delete email st :
  attempts_bounded st -> attempts_bounded (delete email st).
Proof.
  intros Hst other e H. apply lookup_delete_Some in H as [_ H]. eauto.
Qed.

Lemma attempts_bounded_insert email e st :
  0 <= attempts e <= 3 ->
  attempts_bounded st -> attempts_bounded (<[email := e]> st).
Proof.
  intros He Hst other e' H.
  apply lookup_insert_Some in H as [[_ <-] | [_ H]]; eauto.
Qed.

Lemma attempts_bounded_store_pin now email code st :
  attempts_bounded st -> attempts_bounded (store_pin now email code st).
Proof. intros Hst. apply attempts_bounded_insert; [simpl; lia | done]. Qed.

Lemma attempts_bounded_verify_pin now email entered st :
  attempts_bounded st ->
  attempts_bounded (snd (verify_pin_traced now email entered st)).
Proof.
  intros Hst.
  destruct (verify_pin_meets_spec now email entered st)
    as [Hno | e He _ | e He _ _ | e He _ _ _ | e He _ Hlt _];
    try done; try by apply attempts_bounded_delete.
  apply attempts_bounded_insert; [|done].
  simpl. specialize (Hst _ _ He). lia.
Qed.

Lemma attempts_bounded_cleanup now st :
  attempts_bounded st -> attempts_bounded (cleanup_expired_pins now st).
Proof.
  intros Hst email e H. unfold cleanup_expired_pins in H.
  apply map_lookup_filter_Some in H as [H _]. eauto.
Qed.

Lemma reachable_attempts_bounded st :
  reachable st -> attempts_bounded st.
Proof.
  induction 1 as [| st c _ IH].
  - apply attempts_bounded_empty.
  - destruct c as [now email code | now email entered | now]; simpl.
    + by apply attempts_bounded_store_pin.
    + by apply attempts_bounded_verify_pin.
    + by apply attempts_bounded_cleanup.
Qed.

(** A duplicate-free list whose members all equal [x] is empty or [[x]]. *)
Lemma NoDup_all_equal {A} (x : A) (l : list A) :
  NoDup l -> (forall y, y ∈ l -> y = x) -> l = [] \/ l = [x].
Proof.
  intros Hnd Hall. destruct l as [|a [|b l]].
  - by left.
  - right. f_equal. apply Hall. apply list_elem_of_here.
  - exfalso. apply NoDup_cons in Hnd as [Hnotin _]. apply Hnotin.
    rewrite (Hall a), (Hall b).
    + apply list_elem_of_here.
    + apply list_elem_of_further, list_elem_of_here.
    + apply list_elem_of_here.
Qed.

(** The items of one identity are exactly what lookup finds. *)
Lemma entries_for_lookup email (st : gmap string pin_entry) :
  entries_for email st
  = match st !! email with
    | Some e => [(email, e)]
    | None => []
    end.
Proof.
  unfold entries_for.
  set (l := filter (fun kv : string * pin_entry => kv.1 = email) (map_to_list st)).
  assert (Hnd : NoDup l) by apply NoDup_filter, NoDup_map_to_list.
  assert (Hin : forall k e, (k, e) ∈ l <-> k = email /\ st !! k = Some e).
  { intros k e. unfold l. rewrite list_elem_of_filter, elem_of_map_to_list.
    simpl. tauto. }
  destruct (st !! email) as [e|] eqn:He.
  - destruct (NoDup_all_equal (email, e) l Hnd) as [Hl | Hl]; [| |done].
    + intros [k e'] Hy. apply Hin in Hy as [-> Hy]. congruence.
    + assert (Hmem : (email, e) ∈ l) by (apply Hin; done).
      rewrite Hl in Hmem. by apply not_elem_of_nil in Hmem.
  - destruct l as [|[k e'] l']; [done|].
    destruct (proj1 (Hin k e')) as [-> Hmem]; [apply list_elem_of_here|].
    congruence.
Qed.

Lemma entries_for_at_most_one email (st : gmap string pin_entry) :
  (length (entries_for email st) <= 1)%nat.
Proof. rewrite entries_for_lookup. destruct (st !! email); simpl; lia. Qed.

(** The claim of the design document, tried on a store reached by issuing
    PIN 481920 to [a@x.com] at time 0 and entering two wrong codes: the
    failed call that brings [attempts] to 3 hands back false and leaves the
    entry in the store, so a lookup right after it does not come back
    empty. *)
Lemma entry_survives_its_third_failure :
  let s2 :=
    run_call (CallVerifyPin 2 "a@x.com" "111111")
      (run_call (CallVerifyPin 1 "a@x.com" "000000")
         (run_call (CallStorePin 0 "a@x.com" "481920") ∅)) in
  let r := verify_pin 3 "a@x.com" "222222" s2 in
  reachable s2 /\
  s2 !! "a@x.com"
    = Some {| pin := "481920"; expires_at := 600000000; attempts := 2 |} /\
  fst r = false /\
  snd r !! "a@x.com"
    = Some {| pin := "481920"; expires_at := 600000000; attempts := 3 |} /\
  snd r !! "a@x.com" <> None.
Proof.
  split; [repeat apply reachable_call; apply reachable_start |].
  vm_compute. repeat split; congruence.
Qed.

(** C3, as the code has it.  In every state the store can reach, an
    identity has at most one entry and every [attempts] counter lies between
    0 and 3.  The failed verification that brings [attempts] from 2 to 3
    keeps the entry: a lookup right after it finds the entry with
    [attempts = 3].  It is the next [verify_pin] call for that identity,
    whatever its code and clock reading, that hands back false and deletes
    the entry. *)
Theorem reachable_store_invariants :
  forall st, reachable st ->
    (forall email, (length (entries_for email st) <= 1)%nat) /\
    (forall email e, st !! email = Some e -> 0 <= attempts e <= 3) /\
    (forall now email wrong e,
        st !! email = Some e ->
        now <= expires_at e ->
        attempts e = 2 ->
        pin e <> wrong ->
        let r := verify_pin_traced now email wrong st in
        fst r = IncorrectPin /\
        snd r !! email
          = Some {| pin := pin e; expires_at := expires_at e; attempts := 3 |} /\
        forall now' any,
          let r' := verify_pin_traced now' email any (snd r) in
          returned (fst r') = false /\ snd r' !! email = None).
Proof.
  intros st Hreach. split; [|split].
  - intros email. apply entries_for_at_most_one.
  - apply reachable_attempts_bounded, Hreach.
  - intros now email wrong e He Hnow Hatt Hpin r.
    assert (Hr : r = (IncorrectPin, <[email := bump_attempts e]> st)).
    { apply wrong_code_step; try done. lia. }
    assert (Hlook : snd r !! email
                    = Some {| pin := pin e; expires_at := expires_at e;
                              attempts := 3 |}).
    { rewrite Hr. simpl. rewrite lookup_insert_eq. unfold bump_attempts.
      by rewrite Hatt. }
    split; [by rewrite Hr | split; [exact Hlook |]].
    intros now' any r'.
    destruct (decide (now' > expires_at e)) as [Hexp | Hexp].
    + unfold r'. erewrite verify_pin_expired; [| exact Hlook | exact Hexp].
      simpl. split; [done | apply lookup_delete_eq].
    + unfold r'. erewrite verify_pin_exhausted;
        [| exact Hlook | exact Hexp | simpl; lia].
      simpl. split; [done | apply lookup_delete_eq].
Qed.

Lemma reachable_store_invariants_witness :
  let s2 :=
    run_call (CallVerifyPin 2 "a@x.com" "111111")
      (run_call (CallVerifyPin 1 "a@x.com" "000000")
         (run_call (CallStorePin 0 "a@x.com" "481920") ∅)) in
  let e2 := {| pin := "481920"; expires_at := 600000000; attempts := 2 |} in
  (reachable s2 /\ s2 !! "a@x.com" = Some e2 /\ 3 <= expires_at e2 /\
   attempts e2 = 2 /\ pin e2 <> "222222"%string) /\
  (length (entries_for "a@x.com" s2) <= 1)%nat /\
  0 <= attempts e2 <= 3 /\
  let r := verify_pin_traced 3 "a@x.com" "222222" s2 in
  fst r = IncorrectPin /\
  snd r !! "a@x.com"
    = Some {| pin := "481920"; expires_at := 600000000; attempts := 3 |} /\
  let r' := verify_pin_traced 4 "a@x.com" "481920" (snd r) in
  returned (fst r') = false /\ snd r' !! "a@x.com" = None.
Proof.
  intros s2 e2.
  assert (Hreach : reachable s2)
    by (repeat apply reachable_call; apply reachable_start).
  assert (He2 : s2 !! "a@x.com" = Some e2) by (vm_compute; reflexivity).
  assert (Hnow : 3 <= expires_at e2) by (simpl; lia).
  assert (Hpin : pin e2 <> "222222"%string) by discriminate.
  destruct (reachable_store_invariants s2 Hreach) as (Hone & Hbound & Hthird).
  split; [repeat split; assumption |].
  split; [apply Hone |].
  split; [apply (Hbound "a@x.com" e2 He2) |].
  destruct (Hthird 3 "a@x.com" "222222"%string e2 He2 Hnow eq_refl Hpin)
    as (Hfst & Hsnd & Hnext).
  split; [exact Hfst |].
  split; [exact Hsnd |].
  exact (Hnext 4 "481920"%string).
Defined.

(** ** Delivery and the [request_pin] endpoint *)

Section Delivery.
Context `{D : Deployment}.
Variables (smtp : smtp_outcome) (email code : string) (w : world).

(** Each way through [send_pin_email] ends in [return True]. *)
Lemma send_pin_email_returns_true :
  fst (send_pin_email smtp email code w) = Returns true.
Proof.
  unfold send_pin_email, send_pin_email_try.
  destruct (py_not_str SMTP_USERNAME || py_not_str SMTP_PASSWORD);
    [reflexivity|].
  destruct smtp; reflexivity.
Qed.

(** [send_pin_email] does not touch [pin_storage]. *)
Lemma send_pin_email_keeps_pin_storage :
  pin_storage (snd (send_pin_email smtp email code w)) = pin_storage w.
Proof.
  unfold send_pin_email, send_pin_email_try.
  destruct (py_not_str SMTP_USERNAME || py_not_str SMTP_PASSWORD);
    [reflexivity|].
  destruct smtp; reflexivity.
Qed.
End Delivery.

Section RequestPin.
Context `{D : Deployment}.
Variables (now_sweep now_store : Z) (rng : nat -> nat).
Variables (smtp : smtp_outcome) (email : string) (w : world).

Lemma request_pin_try_unfold :
  request_pin_try now_sweep now_store rng smtp email w
  = (Returns {| success := true; message := pin_sent_message email |},
     snd (send_pin_email smtp email (generate_pin rng)
            (request_pin_stored now_sweep now_store rng email w))).
Proof.
  unfold request_pin_try.
  pose proof (send_pin_email_returns_true smtp email (generate_pin rng)
                (request_pin_stored now_sweep now_store rng email w)) as Hs.
  destruct (send_pin_email smtp email (generate_pin rng)
              (request_pin_stored now_sweep now_store rng email w))
    as [r w3].
  simpl in Hs. subst r. reflexivity.
Qed.

Lemma request_pin_unfold :
  request_pin now_sweep now_store rng smtp email w
  = (Returns {| success := true; message := pin_sent_message email |},
     snd (send_pin_email smtp email (generate_pin rng)
            (request_pin_stored now_sweep now_store rng email w))).
Proof. unfold request_pin. by rewrite request_pin_try_unfold. Qed.


Lemma request_pin_pin_storage :
  pin_storage (snd (request_pin now_sweep now_store rng smtp email w))
  = store_pin now_store email (generate_pin rng)
      (cleanup_expired_pins now_sweep (pin_storage w)).
Proof.
  rewrite request_pin_unfold. simpl.
  by rewrite send_pin_email_keeps_pin_storage.
Qed.
End RequestPin.

(** C9.  [send_pin_email] returns [True] for every e-mail address and PIN,
    whether SMTP is unconfigured, the message is sent, or sending raises; so
    the [try] block of [request_pin] never raises its HTTP 500
    "Failed to send PIN" exception and the endpoint always answers with the
    success response. *)
Theorem send_pin_email_always_true :
  forall (D : Deployment) smtp email code w,
    fst (send_pin_email smtp email code w) = Returns true
    /\ (forall now_sweep now_store rng,
          fst (request_pin_try now_sweep now_store rng smtp email w)
            <> Raises (HTTPException 500 send_failed_detail)
          /\ fst (request_pin now_sweep now_store rng smtp email w)
             = Returns {| success := true;
                          message := pin_sent_message email |}).
Proof.
  intros D smtp email code w. split.
  - apply send_pin_email_returns_true.
  - intros now_sweep now_store rng. split.
    + by rewrite request_pin_try_unfold.
    + by rewrite request_pin_unfold.
Qed.

(** C4 on the code.  With SMTP credentials present and a transport that
    raises, the [try] block of [send_pin_email] raises and nothing reaches
    the outbox, yet [send_pin_email] returns [True] and the endpoint answers
    with the success response; the same answer is given when no credentials
    are configured and the PIN is only logged. *)
Lemma failed_delivery_is_reported_as_sent :
  let w0 := {| pin_storage := ∅; outbox := []; pin_log := [] |} in
  let refused := SmtpRaised "Connection refused" in
  let sent_ok := Returns {| success := true;
                            message := pin_sent_message "a@x.com" |} in
  (fst (@send_pin_email_try mail_deployment refused "a@x.com" "481920" w0)
     = Raises (SMTPException "Connection refused")
   /\ @send_pin_email mail_deployment refused "a@x.com" "481920" w0
      = (Returns true,
         {| pin_storage := ∅; outbox := [];
            pin_log := [("a@x.com", "481920")] |})
   /\ fst (@request_pin mail_deployment 0 0 (fun _ => 0%nat) refused
             "a@x.com" w0) = sent_ok)
  /\ (@send_pin_email dev_deployment SmtpSent "a@x.com" "481920" w0
      = (Returns true,
         {| pin_storage := ∅; outbox := [];
            pin_log := [("a@x.com", "481920")] |})
      /\ fst (@request_pin dev_deployment 0 0 (fun _ => 0%nat) SmtpSent
                "a@x.com" w0) = sent_ok).
Proof.
  cbv zeta. split; [split; [|split] | split].
  - reflexivity.
  - reflexivity.
  - by rewrite request_pin_unfold.
  - reflexivity.
  - by rewrite request_pin_unfold.
Qed.


(** Delivering before storing is a different run: on an empty store the
    delivery statement then starts without any PIN for the identity. *)
Example deliver_then_store_is_another_journal :
  let w0 := {| pin_storage := ∅; outbox := []; pin_log := [] |} in
  let swapped := [DoCleanup 0;
                  DoSendPinEmail SmtpSent "a@x.com" "481920";
                  DoStorePin 0 "a@x.com" "481920"] in
  forall w_at,
    (DoSendPinEmail SmtpSent "a@x.com" "481920", w_at)
      ∈ @journal dev_deployment swapped w0 ->
    pin_storage w_at !! "a@x.com" = None.
Proof.
  intros w0 swapped w_at Hin. simpl in Hin.
  apply elem_of_cons in Hin as [Hin | Hin]; [discriminate |].
  apply elem_of_cons in Hin as [Hin | Hin].
  - injection Hin as ->. reflexivity.
  - apply elem_of_cons in Hin as [Hin | Hin]; [discriminate |].
    by apply not_elem_of_nil in Hin.
Qed.

(** ** Issuing and re-issuing *)

(** A live entry with fewer than three failures is opened by its own code
    and by no other. *)
Lemma live_entry_verifies_iff now email submitted st e :
  st !! email = Some e ->
  now <= expires_at e ->
  attempts e < 3 ->
  fst (verify_pin now email submitted st) = true <-> submitted = pin e.
Proof.
  intros He Hnow Hatt. unfold verify_pin. simpl.
  destruct (decide (pin e = submitted)) as [Hpin | Hpin].
  - erewrite verify_pin_match; [| exact He | lia | lia | exact Hpin].
    simpl. split; congruence.
  - erewrite verify_pin_mismatch; [| exact He | lia | lia | exact Hpin].
    simpl. split; [discriminate | congruence].
Qed.

(** C5.  Right after [request_pin] the store holds exactly one entry for the
    identity: the generated code, no recorded failure, and an expiry ten
    minutes after the clock reading of [store_pin].  When the identity asks
    again before verifying, the second run replaces that entry, and a
    [verify_pin] call made before the new expiry succeeds exactly for the
    code of the second run. *)
Theorem issue_then_reissue :
  forall (D : Deployment) w email
         sweep1 store1 rng1 smtp1 sweep2 store2 rng2 smtp2 now submitted,
    now <= store2 + timedelta_minutes 10 ->
    let w1 := snd (request_pin sweep1 store1 rng1 smtp1 email w) in
    let w2 := snd (request_pin sweep2 store2 rng2 smtp2 email w1) in
    let entry1 := {| pin := generate_pin rng1;
                     expires_at := store1 + timedelta_minutes 10;
                     attempts := 0 |} in
    let entry2 := {| pin := generate_pin rng2;
                     expires_at := store2 + timedelta_minutes 10;
                     attempts := 0 |} in
    (pin_storage w1 !! email = Some entry1
     /\ entries_for email (pin_storage w1) = [(email, entry1)]
     /\ expires_at entry1 = store1 + 600000000)
    /\ (pin_storage w2 !! email = Some entry2
        /\ entries_for email (pin_storage w2) = [(email, entry2)])
    /\ (fst (verify_pin now email submitted (pin_storage w2)) = true
        <-> submitted = generate_pin rng2).
Proof.
  intros D w email sweep1 store1 rng1 smtp1 sweep2 store2 rng2 smtp2
    now submitted Hnow w1 w2 entry1 entry2.
  assert (H1 : pin_storage w1 !! email = Some entry1).
  { unfold w1. rewrite request_pin_pin_storage. apply store_pin_lookup. }
  assert (H2 : pin_storage w2 !! email = Some entry2).
  { unfold w2. rewrite request_pin_pin_storage. apply store_pin_lookup. }
  split; [|split].
  - split; [exact H1 | split].
    + by rewrite entries_for_lookup, H1.
    + simpl. unfold timedelta_minutes. lia.
  - split; [exact H2 |]. by rewrite entries_for_lookup, H2.
  - apply (live_entry_verifies_iff now email submitted _ entry2 H2);
      simpl; lia.
Qed.

Lemma issue_then_reissue_witness :
  let w0 := {| pin_storage := ∅; outbox := []; pin_log := [] |} in
  let w1 := snd (@request_pin dev_deployment 0 1 (fun i => i) SmtpSent
                   "a@x.com" w0) in
  let w2 := snd (@request_pin dev_deployment 60000000 60000001
                   (fun i => (i + 4) * 7)%nat SmtpSent "a@x.com" w1) in
  120000000 <= 60000001 + timedelta_minutes 10 /\
  pin_storage w1 !! "a@x.com"
    = Some {| pin := "012345"; expires_at := 600000001; attempts := 0 |} /\
  pin_storage w2 !! "a@x.com"
    = Some {| pin := "852963"; expires_at := 660000001; attempts := 0 |} /\
  fst (verify_pin 120000000 "a@x.com" "012345" (pin_storage w2)) = false /\
  fst (verify_pin 120000000 "a@x.com" "852963" (pin_storage w2)) = true.
Proof.
  intros w0 w1 w2.
  assert (Hnow : 120000000 <= 60000001 + timedelta_minutes 10)
    by (unfold timedelta_minutes; lia).
  split; [exact Hnow |].
  destruct (issue_then_reissue dev_deployment w0 "a@x.com"
              0 1 (fun i => i) SmtpSent
              60000000 60000001 (fun i => (i + 4) * 7)%nat SmtpSent
              120000000 "852963"%string Hnow)
    as ((H1 & _ & _) & (H2 & _) & Hiff).
  destruct (issue_then_reissue dev_deployment w0 "a@x.com"
              0 1 (fun i => i) SmtpSent
              60000000 60000001 (fun i => (i + 4) * 7)%nat SmtpSent
              120000000 "012345"%string Hnow)
    as (_ & _ & Hold).
  split; [exact H1 |].
  split; [exact H2 |].
  split.
  - apply not_true_is_false. intros Htrue. apply Hold in Htrue. discriminate.
  - apply Hiff. reflexivity.
Defined.

(** ** Tokens *)

Lemma pos_of_bits_of_pos p : pos_of_bits (bits_of_pos p) = Some p.
Proof. induction p as [q IH | q IH |]; simpl; by rewrite ?IH. Qed.

Lemma sample_decode_encode (sub : option string) (t : Z) key algorithms now :
  sample_decode (bits_of_pos (encode (sub, t, key))) key algorithms now
  = if t <? now then Raises ExpiredSignatureError
    else Returns (sample_payload sub t).
Proof.
  unfold sample_decode. rewrite pos_of_bits_of_pos. simpl.
  rewrite decode_encode. by rewrite String.eqb_refl.
Qed.

(** The sample deployment keeps the promises of python-jose. *)
Lemma sample_deployment_contract user password :
  @jose_contract (sample_deployment user password).
Proof.
  split; simpl.
  - intros key email t. eexists. unfold sample_encode.
    rewrite lookup_insert_eq. reflexivity.
  - intros key email t tok now Henc Hnow.
    unfold sample_encode in Henc. rewrite lookup_insert_eq in Henc.
    injection Henc as <-.
    exists (sample_payload (Some email) t). split.
    + rewrite sample_decode_encode.
      destruct (Z.ltb_spec t now); [lia | reflexivity].
    + reflexivity.
Qed.

Section Tokens.
Context `{D : Deployment}.

Lemma token_data_exp now email :
  token_data now email !! "exp"
  = Some (PyDatetime (now + timedelta_minutes ACCESS_TOKEN_EXPIRE_MINUTES)).
Proof. reflexivity. Qed.

Lemma token_data_sub now email :
  token_data now email !! "sub" = Some (PyStr email).
Proof. reflexivity. Qed.

(** [except JWTError] turns every exception of that family into [None]. *)
Lemma verify_token_caught now token e :
  jwt_decode token SECRET_KEY [ALGORITHM] now = Raises e ->
  isinstance_JWTError e = true ->
  verify_token now token = Returns PyNone.
Proof. intros Hdec He. unfold verify_token. by rewrite Hdec, He. Qed.

Lemma verify_token_decoded now token payload :
  jwt_decode token SECRET_KEY [ALGORITHM] now = Returns payload ->
  verify_token now token = Returns (py_get payload "sub").
Proof.
  intros Hdec. unfold verify_token. rewrite Hdec. simpl.
  by destruct (py_get payload "sub").
Qed.
End Tokens.

Lemma posix_seconds_add_hours now :
  posix_seconds (now + timedelta_minutes ACCESS_TOKEN_EXPIRE_MINUTES)
  = posix_seconds now + 8 * 60 * 60.
Proof.
  unfold posix_seconds, timedelta_minutes, ACCESS_TOKEN_EXPIRE_MINUTES.
  replace (now + 480 * 60000000) with (now + 28800 * 1000000) by lia.
  rewrite Z.div_add by lia. lia.
Qed.

Lemma posix_seconds_mono a b : a <= b -> posix_seconds a <= posix_seconds b.
Proof. intros Hle. unfold posix_seconds. apply Z.div_le_mono; lia. Qed.

(** The runnable deployment keeps the expiry contract. *)
Lemma posix_deployment_contract : @jose_expiry_contract posix_deployment.
Proof.
  split; simpl.
  - intros key email t. eexists. unfold posix_encode.
    rewrite lookup_insert_eq. reflexivity.
  - intros key email t tok now Henc Hnow.
    unfold posix_encode in Henc. rewrite lookup_insert_eq in Henc.
    injection Henc as <-.
    exists (sample_payload (Some email) (posix_seconds t)).
    split; [| split; reflexivity].
    unfold posix_decode. rewrite sample_decode_encode.
    destruct (Z.ltb_spec (posix_seconds t) (posix_seconds now));
      [lia | reflexivity].
  - intros key email t tok now Henc Hnow.
    unfold posix_encode in Henc. rewrite lookup_insert_eq in Henc.
    injection Henc as <-.
    unfold posix_decode. rewrite sample_decode_encode.
    destruct (Z.ltb_spec (posix_seconds t) (posix_seconds now));
      [reflexivity | lia].
Qed.

(** C6.  Given a JWT library that treats the expiry as python-jose does,
    [create_access_token] returns a token for every identity, and that
    token carries the identity and an expiry eight hours after the clock
    reading of its creation: decoding it gives [sub] equal to the identity
    and [exp] equal to the creation time plus 28800 seconds;
    [verify_token] returns the identity at every clock reading before the
    creation time plus eight hours; and [verify_token] returns [None] once
    the clock, in whole seconds, has passed that expiry. *)
Theorem token_expires_eight_hours_after_issue :
  forall (D : Deployment), jose_expiry_contract ->
    forall now email,
      exists tok,
        create_access_token now email = Returns tok
        /\ (forall now', now' < now + 8 * 60 * 60 * 1000000 ->
              verify_token now' tok = Returns (PyStr email)
              /\ exists payload,
                   jwt_decode tok SECRET_KEY [ALGORITHM] now' = Returns payload
                   /\ payload !! "sub" = Some (PyStr email)
                   /\ payload !! "exp"
                      = Some (PyInt (posix_seconds now + 8 * 60 * 60)))
        /\ (forall now',
              posix_seconds now + 8 * 60 * 60 < posix_seconds now' ->
              verify_token now' tok = Returns PyNone).
Proof.
  intros D [Henc Hacc Hrej] now email.
  destruct (Henc SECRET_KEY email
              (now + timedelta_minutes ACCESS_TOKEN_EXPIRE_MINUTES))
    as [tok Htok].
  exists tok. split; [exact Htok |]. split.
  - intros now' Hbefore.
    destruct (Hacc SECRET_KEY email _ tok now' Htok)
      as (payload & Hpay & Hsub & Hexp).
    { apply posix_seconds_mono.
      unfold timedelta_minutes, ACCESS_TOKEN_EXPIRE_MINUTES. lia. }
    split.
    + rewrite (verify_token_decoded _ _ _ Hpay). unfold py_get.
      by rewrite Hsub.
    + exists payload. rewrite posix_seconds_add_hours in Hexp. done.
  - intros now' Hafter.
    apply (verify_token_caught now' tok ExpiredSignatureError); [| done].
    apply (Hrej SECRET_KEY email _ tok now' Htok).
    rewrite posix_seconds_add_hours. exact Hafter.
Qed.

Lemma token_expires_eight_hours_after_issue_witness :
  @jose_expiry_contract posix_deployment /\
  exists tok,
    @create_access_token posix_deployment 1500000 "a@x.com" = Returns tok
    /\ (28801499999 < 1500000 + 8 * 60 * 60 * 1000000
        /\ @verify_token posix_deployment 28801499999 tok
           = Returns (PyStr "a@x.com")
        /\ exists payload,
             @jwt_decode posix_deployment tok
               "your-secret-key-change-this-in-production" [ALGORITHM]
               28801499999 = Returns payload
             /\ payload !! "exp" = Some (PyInt 28801))
    /\ (posix_seconds 1500000 + 8 * 60 * 60 < posix_seconds 28802000000
        /\ @verify_token posix_deployment 28802000000 tok = Returns PyNone).
Proof.
  split; [apply posix_deployment_contract |].
  destruct (token_expires_eight_hours_after_issue posix_deployment
              posix_deployment_contract 1500000 "a@x.com"%string)
    as (tok & Hcreate & Hbefore & Hafter).
  exists tok. split; [exact Hcreate |].
  assert (Hlt : 28801499999 < 1500000 + 8 * 60 * 60 * 1000000) by lia.
  assert (Hgt : posix_seconds 1500000 + 8 * 60 * 60
                < posix_seconds 28802000000) by (vm_compute; reflexivity).
  destruct (Hbefore 28801499999 Hlt) as (Hverify & payload & Hdec & _ & Hexp).
  split.
  - split; [exact Hlt |]. split; [exact Hverify |].
    exists payload. split; [exact Hdec | exact Hexp].
  - split; [exact Hgt | exact (Hafter 28802000000 Hgt)].
Defined.

Lemma sample_decode_other_key (sub : option string) (t : Z)
    (signed_with key : string) algorithms now :
  signed_with <> key ->
  sample_decode (bits_of_pos (encode (sub, t, signed_with))) key algorithms now
  = Raises JWTError.
Proof.
  intros Hne. unfold sample_decode. rewrite pos_of_bits_of_pos. simpl.
  rewrite decode_encode. apply String.eqb_neq in Hne. by rewrite Hne.
Qed.

(** C7.  Whenever [jwt.decode] rejects the token string with the exception
    it raises for a malformed token, for a bad signature or for a passed
    expiry, [verify_token] returns [None]: it does not raise, and the three
    reasons give the same result. *)
Theorem invalid_token_is_absent :
  forall (D : Deployment) now token fault,
    jwt_decode token SECRET_KEY [ALGORITHM] now = Raises (jose_raises fault) ->
    verify_token now token = Returns PyNone.
Proof.
  intros D now token fault Hdec.
  apply (verify_token_caught now token (jose_raises fault) Hdec).
  by destruct fault.
Qed.

Lemma invalid_token_is_absent_witness :
  let key := "your-secret-key-change-this-in-production"%string in
  let forged := bits_of_pos (encode (Some "a@x.com"%string, 100, "guess"%string)) in
  let stale := bits_of_pos (encode (Some "a@x.com"%string, 100, key)) in
  (@jwt_decode dev_deployment "not.a.token" key [ALGORITHM] 5
     = Raises (jose_raises Malformed)
   /\ @verify_token dev_deployment 5 "not.a.token" = Returns PyNone)
  /\ (@jwt_decode dev_deployment forged key [ALGORITHM] 5
        = Raises (jose_raises BadSignature)
      /\ @verify_token dev_deployment 5 forged = Returns PyNone)
  /\ (@jwt_decode dev_deployment stale key [ALGORITHM] 101
        = Raises (jose_raises Expired)
      /\ @verify_token dev_deployment 101 stale = Returns PyNone).
Proof.
  intros key forged stale.
  assert (Hbad : @jwt_decode dev_deployment "not.a.token" key [ALGORITHM] 5
                 = Raises (jose_raises Malformed)) by reflexivity.
  assert (Hforged : @jwt_decode dev_deployment forged key [ALGORITHM] 5
                    = Raises (jose_raises BadSignature))
    by (apply sample_decode_other_key; discriminate).
  assert (Hstale : @jwt_decode dev_deployment stale key [ALGORITHM] 101
                   = Raises (jose_raises Expired))
    by (simpl; unfold stale; rewrite sample_decode_encode; reflexivity).
  split; [split; [exact Hbad |] | split; [split; [exact Hforged |]
                                         | split; [exact Hstale |]]].
  - exact (invalid_token_is_absent dev_deployment 5 "not.a.token" Malformed Hbad).
  - exact (invalid_token_is_absent dev_deployment 5 forged BadSignature Hforged).
  - exact (invalid_token_is_absent dev_deployment 101 stale Expired Hstale).
Defined.

(** C10.  When [jwt.decode] accepts the token (signature and expiry pass)
    and the decoded claims have no ["sub"] key, [verify_token] returns
    [None]: it neither raises nor returns a value that is not an
    identity. *)
Theorem token_without_subject_is_absent :
  forall (D : Deployment) now token payload,
    jwt_decode token SECRET_KEY [ALGORITHM] now = Returns payload ->
    payload !! "sub" = None ->
    verify_token now token = Returns PyNone.
Proof.
  intros D now token payload Hdec Hsub.
  rewrite (verify_token_decoded now token payload Hdec).
  unfold py_get. by rewrite Hsub.
Qed.

Lemma token_without_subject_is_absent_witness :
  let key := "your-secret-key-change-this-in-production"%string in
  let anonymous := bits_of_pos (encode (@None string, 100, key)) in
  @jwt_decode dev_deployment anonymous key [ALGORITHM] 5
    = Returns (sample_payload None 100)
  /\ sample_payload None 100 !! "sub" = None
  /\ @verify_token dev_deployment 5 anonymous = Returns PyNone.
Proof.
  intros key anonymous.
  assert (Hdec : @jwt_decode dev_deployment anonymous key [ALGORITHM] 5
                 = Returns (sample_payload None 100))
    by (simpl; unfold anonymous; rewrite sample_decode_encode; reflexivity).
  assert (Hsub : sample_payload None 100 !! "sub" = None) by reflexivity.
  split; [exact Hdec |]. split; [exact Hsub |].
  exact (token_without_subject_is_absent dev_deployment 5 anonymous
           (sample_payload None 100) Hdec Hsub).
Defined.

(** * Further properties of the code *)

(** ** Generated PINs *)

Lemma nth_digit_is_digit k :
  (k < 10)%nat -> is_digit (nth k digits "0"%char) = true.
Proof.
  intros Hlt. do 10 (destruct k as [|k]; [reflexivity |]). lia.
Qed.

Lemma choice_is_digit rng i : is_digit (choice rng i) = true.
Proof.
  unfold choice. apply nth_digit_is_digit, Nat.mod_upper_bound. lia.
Qed.

Lemma generate_pin_digits rng : six_digits (generate_pin rng) = true.
Proof.
  unfold six_digits, generate_pin.
  rewrite list_ascii_of_string_of_list_ascii. simpl.
  by rewrite !choice_is_digit.
Qed.

Lemma choice_in_digits rng i : choice rng i ∈ digits.
Proof.
  unfold choice. apply list_elem_of_In, nth_In.
  change (length digits) with 10%nat. apply Nat.mod_upper_bound. lia.
Qed.

(** X1.  Whatever the random source draws, [generate_pin] returns a string
    of exactly six characters, each one of the ten decimal digits. *)
Theorem generate_pin_six_digits :
  forall rng,
    String.length (generate_pin rng) = 6%nat
    /\ Forall (fun c => c ∈ digits) (list_ascii_of_string (generate_pin rng))
    /\ six_digits (generate_pin rng) = true.
Proof.
  intros rng. split; [reflexivity |]. split.
  - unfold generate_pin. rewrite list_ascii_of_string_of_list_ascii.
    simpl. repeat (apply Forall_cons_2; [apply choice_in_digits |]).
    apply Forall_nil_2.
  - apply generate_pin_digits.
Qed.

(** ** The life of one stored PIN *)

(** X2.  A PIN stored at clock reading [t] is accepted, when its own code is
    the first one entered, exactly at the clock readings up to and
    including [t] plus ten minutes.  Accepted or not, that call uses the
    PIN up: the next call for the identity, with any code at any time, finds
    no PIN. *)
Theorem stored_pin_validity_window :
  forall t now email code st,
    (fst (verify_pin now email code (store_pin t email code st)) = true
     <-> now <= t + 600000000)
    /\ (forall now' any,
          verify_pin_traced now' email any
            (snd (verify_pin now email code (store_pin t email code st)))
          = (NoPinFound,
             snd (verify_pin now email code (store_pin t email code st)))).
Proof.
  intros t now email code st.
  pose proof (store_pin_lookup t email code st) as Hlook.
  set (e := {| pin := code; expires_at := t + timedelta_minutes 10;
               attempts := 0 |}) in Hlook.
  assert (Hexp : expires_at e = t + 600000000)
    by (simpl; unfold timedelta_minutes; lia).
  destruct (decide (now > expires_at e)) as [Hlate | Hintime].
  - unfold verify_pin. rewrite (verify_pin_expired _ _ _ _ e Hlook Hlate).
    simpl. split; [split; [discriminate | lia] |].
    intros now' any. apply verify_pin_no_entry, lookup_delete_eq.
  - unfold verify_pin.
    rewrite (verify_pin_match _ _ _ _ e Hlook Hintime); [| simpl; lia | done].
    simpl. split; [split; [lia | done] |].
    intros now' any. apply verify_pin_no_entry, lookup_delete_eq.
Qed.

(** ** Isolation between identities *)

Lemma verify_pin_other now email entered st other :
  email <> other ->
  snd (verify_pin_traced now email entered st) !! other = st !! other.
Proof.
  intros Hne.
  destruct (verify_pin_meets_spec now email entered st);
    try done; try by apply lookup_delete_ne.
  by apply lookup_insert_ne.
Qed.

Lemma verify_pin_lookup_is_Some now email entered st k :
  is_Some (snd (verify_pin_traced now email entered st) !! k) ->
  is_Some (st !! k).
Proof.
  destruct (verify_pin_meets_spec now email entered st) as
    [Hno | e He _ | e He _ _ | e He _ _ _ | e He _ _ _]; try done;
    try (rewrite lookup_delete_is_Some; tauto).
  rewrite lookup_insert_is_Some. intros [<- | [_ H]]; [by eexists | done].
Qed.

(** X3.  A [verify_pin] call for one identity leaves the entry of every
    other identity as it was, and never adds an identity to the store. *)
Theorem verify_pin_touches_only_its_identity :
  forall now email entered st other,
    email <> other ->
    snd (verify_pin now email entered st) !! other = st !! other
    /\ dom (snd (verify_pin now email entered st)) ⊆ dom st.
Proof.
  intros now email entered st other Hne. split.
  - by apply verify_pin_other.
  - intros k. rewrite !elem_of_dom. apply verify_pin_lookup_is_Some.
Qed.

Lemma verify_pin_touches_only_its_identity_witness :
  let st := store_pin 0 "b@x.com" "135790" (store_pin 0 "a@x.com" "481920" ∅) in
  "a@x.com"%string <> "b@x.com"%string /\
  snd (verify_pin 5 "a@x.com" "000000" st) !! "b@x.com"
    = Some {| pin := "135790"; expires_at := 600000000; attempts := 0 |} /\
  dom (snd (verify_pin 5 "a@x.com" "000000" st)) ⊆ dom st.
Proof.
  intros st.
  assert (Hne : "a@x.com"%string <> "b@x.com"%string) by discriminate.
  split; [exact Hne |].
  destruct (verify_pin_touches_only_its_identity 5 "a@x.com" "000000" st
              "b@x.com" Hne) as [Hother Hdom].
  split; [| exact Hdom].
  rewrite Hother. reflexivity.
Defined.

Lemma store_pin_lookup_other now email code st other :
  email <> other ->
  store_pin now email code st !! other = st !! other.
Proof. intros Hne. unfold store_pin. by apply lookup_insert_ne. Qed.

(** ** How many guesses one PIN allows *)

Lemma cleanup_lookup now st email :
  cleanup_expired_pins now st !! email
  = match st !! email with
    | Some e => if expires_at e <? now then None else Some e
    | None => None
    end.
Proof.
  unfold cleanup_expired_pins. destruct (st !! email) as [e|] eqn:He.
  - destruct (Z.ltb_spec (expires_at e) now) as [Hlt | Hge].
    + apply map_lookup_filter_None_2. right. intros x Hx Hkeep.
      simpl in Hkeep. rewrite He in Hx. injection Hx as <-. by apply Hkeep.
    + apply map_lookup_filter_Some_2; [done | simpl; lia].
  - apply map_lookup_filter_None_2. by left.
Qed.

(** One call that is not a [store_pin] for the identity: if it compares a
    code it uses up one unit of the budget, and it never adds to it. *)
Lemma guess_budget_step email c st :
  stores_for email c = false ->
  ((if compares_code email c st then 1 else 0)
   + guess_budget email (run_call c st) <= guess_budget email st)%nat.
Proof.
  intros Hc. destruct c as [now e code | now e entered | now]; simpl in *.
  - apply String.eqb_neq in Hc. unfold guess_budget.
    rewrite store_pin_lookup_other by done. lia.
  - destruct (String.eqb_spec e email) as [-> | Hne]; simpl.
    + unfold guess_budget.
      destruct (verify_pin_meets_spec now email entered st)
        as [Hno | x Hx _ | x Hx _ _ | x Hx _ Hatt _ | x Hx _ Hatt _];
        rewrite ?lookup_delete_eq, ?lookup_insert_eq, ?Hx; simpl; lia.
    + unfold guess_budget. rewrite verify_pin_other by done. lia.
  - unfold guess_budget. rewrite cleanup_lookup.
    destruct (st !! email) as [x|]; [| lia].
    destruct (expires_at x <? now); lia.
Qed.

Lemma count_compares_le_budget email cs :
  Forall (fun c => stores_for email c = false) cs ->
  forall st, (count_compares email cs st <= guess_budget email st)%nat.
Proof.
  induction 1 as [| c rest Hc _ IH]; intros st; simpl; [lia |].
  pose proof (guess_budget_step email c st Hc).
  specialize (IH (run_call c st)). lia.
Qed.

(** X4.  Between two [store_pin] calls for an identity, however many
    [verify_pin], [cleanup_expired_pins] and foreign [store_pin] calls are
    made and whatever codes and clock readings they carry, at most three of
    the calls compare a submitted code with that identity's PIN. *)
Theorem at_most_three_guesses_per_pin :
  forall email cs st,
    reachable st ->
    Forall (fun c => stores_for email c = false) cs ->
    (count_compares email cs st <= 3)%nat.
Proof.
  intros email cs st Hreach Hcs.
  pose proof (count_compares_le_budget email cs Hcs st) as Hle.
  assert (Hbudget : (guess_budget email st <= 3)%nat).
  { unfold guess_budget. destruct (st !! email) as [e|] eqn:He; [| lia].
    pose proof (reachable_attempts_bounded st Hreach email e He). lia. }
  lia.
Qed.

Lemma at_most_three_guesses_per_pin_witness :
  let st := run_call (CallStorePin 0 "a@x.com" "481920") ∅ in
  let cs := [CallVerifyPin 1 "a@x.com" "000000";
             CallStorePin 2 "b@x.com" "135790";
             CallVerifyPin 3 "a@x.com" "111111";
             CallCleanup 4;
             CallVerifyPin 5 "a@x.com" "222222";
             CallVerifyPin 6 "a@x.com" "481920";
             CallVerifyPin 7 "a@x.com" "481920"] in
  reachable st /\
  Forall (fun c => stores_for "a@x.com" c = false) cs /\
  count_compares "a@x.com" cs st = 3%nat /\
  (count_compares "a@x.com" cs st <= 3)%nat.
Proof.
  intros st cs.
  assert (Hreach : reachable st) by (apply reachable_call, reachable_start).
  assert (Hcs : Forall (fun c => stores_for "a@x.com" c = false) cs)
    by (repeat constructor).
  split; [exact Hreach |]. split; [exact Hcs |].
  split; [vm_compute; reflexivity |].
  exact (at_most_three_guesses_per_pin "a@x.com" cs st Hreach Hcs).
Defined.

(** ** Sweeping expired PINs *)

(** X5.  After [cleanup_expired_pins] the store holds exactly the entries
    that had not expired, unchanged; an entry whose expiry equals the clock
    reading is kept.  Sweeping twice is sweeping once at the later of the
    two clock readings. *)
Theorem cleanup_keeps_the_unexpired :
  forall now st,
    (forall email e,
        cleanup_expired_pins now st !! email = Some e
        <-> st !! email = Some e /\ now <= expires_at e)
    /\ (forall earlier,
          cleanup_expired_pins now (cleanup_expired_pins earlier st)
          = cleanup_expired_pins (Z.max earlier now) st).
Proof.
  intros now st. split.
  - intros email e. rewrite cleanup_lookup.
    destruct (st !! email) as [x|]; [| split; [discriminate | by intros [? _]]].
    destruct (Z.ltb_spec (expires_at x) now); split.
    + discriminate.
    + intros [[= ->] Hle]. lia.
    + intros [= ->]. split; [done | lia].
    + by intros [Hx _].
  - intros earlier. apply map_eq. intros email. rewrite !cleanup_lookup.
    destruct (st !! email) as [x|]; [| done].
    destruct (Z.ltb_spec (expires_at x) earlier),
             (Z.ltb_spec (expires_at x) (Z.max earlier now));
      try lia; try done;
      destruct (Z.ltb_spec (expires_at x) now); try lia; done.
Qed.

Lemma cleanup_delete now email st :
  cleanup_expired_pins now (delete email st)
  = delete email (cleanup_expired_pins now st).
Proof. unfold cleanup_expired_pins. apply map_filter_delete. Qed.

Lemma cleanup_insert_live now email e st :
  now <= expires_at e ->
  cleanup_expired_pins now (<[email := e]> st)
  = <[email := e]> (cleanup_expired_pins now st).
Proof.
  intros Hlive. unfold cleanup_expired_pins.
  apply map_filter_insert_True. simpl. lia.
Qed.

(** X6.  A sweep made at a clock reading not later than that of a
    [verify_pin] call changes neither what the call returns nor the store
    it leaves: sweeping first and verifying, or verifying and sweeping
    afterwards, give the same boolean and the same store. *)
Theorem sweep_commutes_with_verify :
  forall now_sweep now email entered st,
    now_sweep <= now ->
    fst (verify_pin now email entered (cleanup_expired_pins now_sweep st))
    = fst (verify_pin now email entered st)
    /\ snd (verify_pin now email entered (cleanup_expired_pins now_sweep st))
       = cleanup_expired_pins now_sweep (snd (verify_pin now email entered st)).
Proof.
  intros now_sweep now email entered st Hle. unfold verify_pin. simpl.
  pose proof (cleanup_lookup now_sweep st email) as Hswept.
  destruct (st !! email) as [e|] eqn:He.
  - destruct (Z.ltb_spec (expires_at e) now_sweep) as [Hgone | Hkept].
    + rewrite (verify_pin_no_entry _ _ _ _ Hswept).
      rewrite (verify_pin_expired _ _ _ _ e He) by lia. simpl.
      split; [done |]. rewrite cleanup_delete.
      symmetry. by apply delete_id.
    + destruct (decide (now > expires_at e)) as [Hexp | Hexp].
      { rewrite (verify_pin_expired _ _ _ _ e Hswept Hexp),
                (verify_pin_expired _ _ _ _ e He Hexp). simpl.
        by rewrite cleanup_delete. }
      destruct (decide (attempts e >= 3)) as [Hatt | Hatt].
      { rewrite (verify_pin_exhausted _ _ _ _ e Hswept Hexp Hatt),
                (verify_pin_exhausted _ _ _ _ e He Hexp Hatt). simpl.
        by rewrite cleanup_delete. }
      destruct (decide (pin e = entered)) as [Hpin | Hpin].
      { rewrite (verify_pin_match _ _ _ _ e Hswept Hexp Hatt Hpin),
                (verify_pin_match _ _ _ _ e He Hexp Hatt Hpin). simpl.
        by rewrite cleanup_delete. }
      rewrite (verify_pin_mismatch _ _ _ _ e Hswept Hexp Hatt Hpin),
              (verify_pin_mismatch _ _ _ _ e He Hexp Hatt Hpin). simpl.
      split; [done |]. rewrite cleanup_insert_live; [done | simpl; lia].
  - rewrite (verify_pin_no_entry _ _ _ _ Hswept),
            (verify_pin_no_entry _ _ _ _ He). done.
Qed.

Lemma sweep_commutes_with_verify_witness :
  let st := store_pin 0 "b@x.com" "135790" (store_pin 0 "a@x.com" "481920" ∅) in
  600000001 <= 600000002 /\
  fst (verify_pin 600000002 "a@x.com" "481920"
         (cleanup_expired_pins 600000001 st)) = false /\
  fst (verify_pin 600000002 "a@x.com" "481920" st) = false /\
  snd (verify_pin 600000002 "a@x.com" "481920"
         (cleanup_expired_pins 600000001 st))
  = cleanup_expired_pins 600000001
      (snd (verify_pin 600000002 "a@x.com" "481920" st)).
Proof.
  intros st.
  assert (Hle : 600000001 <= 600000002) by lia.
  destruct (sweep_commutes_with_verify 600000001 600000002
              "a@x.com" "481920" st Hle) as [Hfst Hsnd].
  split; [exact Hle |].
  split; [rewrite Hfst; vm_compute; reflexivity |].
  split; [vm_compute; reflexivity | exact Hsnd].
Defined.

(** ** Where the PIN goes *)

(** X7.  [send_pin_email] never loses the PIN: after it the PIN has been
    handed to the SMTP server, written in full to the log, or both.  It is
    handed to the server exactly when both credentials are set and
    [send_message] went through (the block completing, or raising only
    afterwards, while it is left).  It is logged exactly when a credential
    is empty or the block raises.  So a block that raises after the message
    was handed over leaves the PIN both mailed and logged. *)
Theorem pin_is_mailed_or_logged :
  forall (D : Deployment) smtp email code w,
    let w' := snd (send_pin_email smtp email code w) in
    let configured :=
      negb (py_not_str SMTP_USERNAME || py_not_str SMTP_PASSWORD) in
    let handed_over :=
      match smtp with
      | SmtpSent | SmtpRaisedAfterSend _ => true
      | SmtpRaised _ => false
      end in
    let completed :=
      match smtp with
      | SmtpSent => true
      | _ => false
      end in
    outbox w' = (if configured && handed_over
                 then outbox w ++ [(email, code)] else outbox w)
    /\ pin_log w' = (if configured && completed
                     then pin_log w else pin_log w ++ [(email, code)])
    /\ ((email, code) ∈ outbox w' \/ (email, code) ∈ pin_log w').
Proof.
  intros D smtp email code w. unfold send_pin_email, send_pin_email_try.
  destruct (py_not_str SMTP_USERNAME || py_not_str SMTP_PASSWORD); simpl.
  { split; [done | split; [done |]]. right.
    apply elem_of_app. right. apply list_elem_of_singleton. done. }
  destruct smtp as [| reason | reason]; simpl.
  - split; [done | split; [done |]]. left.
    apply elem_of_app. right. apply list_elem_of_singleton. done.
  - split; [done | split; [done |]]. right.
    apply elem_of_app. right. apply list_elem_of_singleton. done.
  - split; [done | split; [done |]]. left.
    apply elem_of_app. right. apply list_elem_of_singleton. done.
Qed.

(** With credentials set and a block that raises while it is left, the
    message is in the outbox and the PIN is in the log. *)
Example mailed_and_logged :
  snd (@send_pin_email mail_deployment (SmtpRaisedAfterSend "QUIT: 421")
         "a@x.com" "481920"
         {| pin_storage := ∅; outbox := []; pin_log := [] |})
  = {| pin_storage := ∅;
       outbox := [("a@x.com", "481920")];
       pin_log := [("a@x.com", "481920")] |}.
Proof. reflexivity. Qed.

(** ** [request_pin] and the other identities *)

(** X8.  A [request_pin] for one identity changes the entry of another
    identity in one way only: it removes it when it had expired at the
    clock reading of the sweep.  An entry that had not expired stays, with
    the same code, expiry and failure count. *)
Theorem request_pin_spares_live_pins_of_others :
  forall (D : Deployment) now_sweep now_store rng smtp email w other e,
    email <> other ->
    pin_storage (snd (request_pin now_sweep now_store rng smtp email w))
      !! other = Some e
    <-> pin_storage w !! other = Some e /\ now_sweep <= expires_at e.
Proof.
  intros D now_sweep now_store rng smtp email w other e Hne.
  rewrite request_pin_pin_storage, store_pin_lookup_other by done.
  rewrite cleanup_lookup.
  destruct (pin_storage w !! other) as [x|];
    [| split; [discriminate | by intros [? _]]].
  destruct (Z.ltb_spec (expires_at x) now_sweep); split.
  - discriminate.
  - intros [[= ->] Hle]. lia.
  - intros [= ->]. split; [done | lia].
  - by intros [Hx _].
Qed.

Lemma request_pin_spares_live_pins_of_others_witness :
  let live := {| pin := "135790"; expires_at := 900; attempts := 2 |} in
  let stale := {| pin := "246802"; expires_at := 100; attempts := 0 |} in
  let w := {| pin_storage := <["b@x.com" := live]> (<["c@x.com" := stale]> ∅);
              outbox := []; pin_log := [] |} in
  let w' := snd (@request_pin dev_deployment 500 501 (fun i => i) SmtpSent
                   "a@x.com" w) in
  ("a@x.com"%string <> "b@x.com"%string /\
   "a@x.com"%string <> "c@x.com"%string) /\
  pin_storage w' !! "b@x.com" = Some live /\
  pin_storage w' !! "c@x.com" <> Some stale.
Proof.
  intros live stale w w'.
  assert (Hb : "a@x.com"%string <> "b@x.com"%string) by discriminate.
  assert (Hc : "a@x.com"%string <> "c@x.com"%string) by discriminate.
  split; [by split |]. split.
  - apply (request_pin_spares_live_pins_of_others dev_deployment 500 501
             (fun i => i) SmtpSent "a@x.com" w "b@x.com" live Hb).
    split; [reflexivity | simpl; lia].
  - intros Hkept.
    apply (request_pin_spares_live_pins_of_others dev_deployment 500 501
             (fun i => i) SmtpSent "a@x.com" w "c@x.com" stale Hc) in Hkept.
    destruct Hkept as [_ Hle]. simpl in Hle. lia.
Defined.

(** ** Splitting a header into words *)

Lemma append_nil_l s : (EmptyString ++ s = s)%string.
Proof. reflexivity. Qed.

Lemma append_cons a w s : (String a w ++ s = String a (w ++ s))%string.
Proof. reflexivity. Qed.

Lemma append_snoc w c s :
  ((w ++ String c EmptyString) ++ s = w ++ String c s)%string.
Proof.
  induction w as [| a w IH]; [done |]. rewrite !append_cons. by f_equal.
Qed.

Lemma append_empty_r s : (s ++ EmptyString = s)%string.
Proof.
  induction s as [| a s IH]; [done |]. rewrite append_cons. by f_equal.
Qed.

Lemma py_split_from_spaces ws r :
  all_space ws = true ->
  py_split_from EmptyString (ws ++ r) = py_split_from EmptyString r.
Proof.
  induction ws as [| c ws IH]; [done |]. simpl.
  intros [Hc Hws]%andb_prop. rewrite ?append_cons; simpl. rewrite Hc.
  by apply IH.
Qed.

Lemma py_split_from_word s : forall w r,
  has_no_space s = true ->
  py_split_from w (s ++ r) = py_split_from (w ++ s) r.
Proof.
  induction s as [| c s IH]; intros w r.
  - by rewrite append_empty_r.
  - simpl. intros [Hc Hs]%andb_prop. apply negb_true_iff in Hc.
    rewrite ?append_cons; simpl. rewrite Hc.
    rewrite IH by done. by rewrite append_snoc.
Qed.

Lemma py_split_from_trailing w ws :
  w <> EmptyString ->
  all_space ws = true ->
  py_split_from w ws = [w].
Proof.
  intros Hw Hws. destruct ws as [| c ws]; simpl.
  - by destruct w.
  - simpl in Hws. apply andb_prop in Hws as [Hc Hws]. rewrite Hc.
    destruct w; [done |]. f_equal.
    rewrite <- (append_empty_r ws).
    by rewrite py_split_from_spaces.
Qed.

(** Two words, with white space before, between and after them. *)
Lemma py_split_two_words ws0 a ws1 b ws2 :
  all_space ws0 = true -> all_space ws1 = true -> all_space ws2 = true ->
  ws1 <> EmptyString ->
  has_no_space a = true -> has_no_space b = true ->
  a <> EmptyString -> b <> EmptyString ->
  py_split (ws0 ++ a ++ ws1 ++ b ++ ws2) = [a; b].
Proof.
  intros H0 H1 H2 Hsep Ha Hb Hane Hbne. unfold py_split.
  rewrite py_split_from_spaces by done.
  rewrite py_split_from_word by done. rewrite append_nil_l.
  destruct ws1 as [| c ws1]; [done |]. simpl in H1.
  apply andb_prop in H1 as [Hc H1]. rewrite ?append_cons; simpl. rewrite Hc.
  destruct a; [done |]. f_equal.
  rewrite py_split_from_spaces by done.
  rewrite py_split_from_word by done. rewrite append_nil_l.
  by apply py_split_from_trailing.
Qed.

(** Lower-casing never turns white space into something else, so a word
    that lower-cases to [bearer] has no white space in it. *)
Lemma py_lower_char_space c :
  py_isspace c = true -> py_isspace (py_lower_char c) = true.
Proof. destruct c as [[] [] [] [] [] [] [] []]; vm_compute; congruence. Qed.

Lemma has_no_space_lower s :
  has_no_space (py_lower s) = true -> has_no_space s = true.
Proof.
  induction s as [| c s IH]; simpl; [done |].
  intros [Hc Hs]%andb_prop. apply andb_true_intro. split; [| by apply IH].
  apply negb_true_iff. apply negb_true_iff in Hc.
  destruct (py_isspace c) eqn:Hsp; [| done].
  apply py_lower_char_space in Hsp. congruence.
Qed.

Lemma bearer_word scheme :
  py_lower scheme = "bearer"%string ->
  has_no_space scheme = true /\ scheme <> EmptyString.
Proof.
  intros Hlow. split.
  - apply has_no_space_lower. by rewrite Hlow.
  - intros ->. discriminate.
Qed.

(** ** The authentication dependency *)

Lemma py_not_str_false s : py_not_str s = false <-> s <> EmptyString.
Proof. destruct s; simpl; split; congruence. Qed.

Lemma get_current_user_two_words `{D : Deployment} now header scheme token :
  py_split header = [scheme; token] ->
  py_lower scheme = "bearer"%string ->
  get_current_user now (Some header)
  = match verify_token now token with
    | Returns email =>
        if py_truthy email then Returns email else Raises invalid_token
    | Raises e => Raises e
    end.
Proof.
  intros Hsplit Hlow. unfold get_current_user.
  destruct header as [| c header]; [discriminate |]. simpl py_not_str.
  cbv iota. rewrite Hsplit.
  apply String.eqb_eq in Hlow. by rewrite Hlow.
Qed.

(** X9.  A header made of a word that lower-cases to [bearer], white space,
    and a token without white space (with any white space around them) gets
    past the format checks whatever the letter case of the scheme, and the
    answer is decided by [verify_token] on exactly that token: its value
    when that is a non-empty identity, HTTP 401 when it is [None] or empty,
    and its exception when it raises. *)
Theorem bearer_header_reaches_the_token_check :
  forall (D : Deployment) now ws0 scheme ws1 token ws2,
    all_space ws0 = true ->
    all_space ws1 = true -> py_not_str ws1 = false ->
    all_space ws2 = true ->
    py_lower scheme = "bearer"%string ->
    has_no_space token = true -> py_not_str token = false ->
    get_current_user now (Some (ws0 ++ scheme ++ ws1 ++ token ++ ws2)%string)
    = match verify_token now token with
      | Returns email =>
          if py_truthy email then Returns email else Raises invalid_token
      | Raises e => Raises e
      end.
Proof.
  intros D now ws0 scheme ws1 token ws2 H0 H1 Hsep H2 Hlow Htok Hne.
  destruct (bearer_word scheme Hlow) as [Hscheme Hsne].
  apply (get_current_user_two_words now _ scheme token); [| exact Hlow].
  apply py_split_two_words; try done; by apply py_not_str_false.
Qed.

Lemma bearer_header_reaches_the_token_check_witness :
  let key := "your-secret-key-change-this-in-production"%string in
  let token := bits_of_pos (encode (Some "a@x.com"%string, 100, key)) in
  (all_space " " = true /\ py_not_str "  " = false /\
   py_lower "BeArEr" = "bearer"%string /\
   has_no_space token = true /\ py_not_str token = false) /\
  @get_current_user dev_deployment 5
     (Some (" " ++ "BeArEr" ++ "  " ++ token ++ " ")%string)
  = Returns (PyStr "a@x.com").
Proof.
  intros key token.
  assert (Htok : has_no_space token = true) by (vm_compute; reflexivity).
  assert (Hne : py_not_str token = false) by (vm_compute; reflexivity).
  split; [repeat split; try reflexivity; assumption |].
  rewrite (bearer_header_reaches_the_token_check dev_deployment 5
             " " "BeArEr" "  " token " "
             eq_refl eq_refl eq_refl eq_refl eq_refl Htok Hne).
  assert (Hdec : @jwt_decode dev_deployment token key [ALGORITHM] 5
                 = Returns (sample_payload (Some "a@x.com"%string) 100))
    by (simpl; unfold token; rewrite sample_decode_encode; reflexivity).
  rewrite (@verify_token_decoded dev_deployment 5 token _ Hdec).
  reflexivity.
Defined.

Lemma verify_token_raises `{D : Deployment} now token e :
  verify_token now token = Raises e ->
  isinstance_JWTError e = false
  /\ jwt_decode token SECRET_KEY [ALGORITHM] now = Raises e.
Proof.
  unfold verify_token.
  destruct (jwt_decode token SECRET_KEY [ALGORITHM] now) as [payload | e'].
  - simpl. by destruct (py_get payload "sub").
  - destruct (isinstance_JWTError e') eqn:He; [discriminate |].
    intros [= <-]. done.
Qed.

(** X10.  What [get_current_user] can answer.  It returns a value only when
    the header has exactly two words, the first lower-cases to [bearer],
    and [verify_token] returned that value for the second; the value is then
    never [None] nor the empty string.  Otherwise it raises one of its three
    HTTP 401 exceptions, or an exception that [jwt.decode] raised and that
    is not a [JWTError]. *)
Theorem get_current_user_answers :
  forall (D : Deployment) now authorization,
    match get_current_user now authorization with
    | Returns v =>
        py_truthy v = true /\ v <> PyNone /\ v <> PyStr EmptyString /\
        exists header scheme token,
          authorization = Some header /\
          py_split header = [scheme; token] /\
          py_lower scheme = "bearer"%string /\
          verify_token now token = Returns v
    | Raises e =>
        e = not_authenticated \/ e = invalid_format \/ e = invalid_token \/
        (isinstance_JWTError e = false /\
         exists token, jwt_decode token SECRET_KEY [ALGORITHM] now = Raises e)
    end.
Proof.
  intros D now [header |]; simpl; [| by left].
  destruct (py_not_str header); [by left |].
  destruct (py_split header) as [| scheme [| token [| third rest]]] eqn:Hsplit;
    try (right; by left).
  destruct (String.eqb_spec (py_lower scheme) "bearer") as [Hlow | Hlow];
    [| right; by left].
  destruct (verify_token now token) as [v | e] eqn:Hver.
  - destruct (py_truthy v) eqn:Htruthy; [| right; right; by left].
    split; [done |]. split; [by intros -> |]. split; [by intros -> |].
    by exists header, scheme, token.
  - right; right; right. apply verify_token_raises in Hver as [He Hdec].
    split; [done | by exists token].
Qed.

(** ** The [verify_pin] endpoint *)

Lemma app_verify_pin_storage `{D : Deployment} now_pin now_token email entered w :
  pin_storage (snd (app_verify_pin now_pin now_token email entered w))
  = snd (verify_pin_traced now_pin email entered (pin_storage w)).
Proof.
  unfold app_verify_pin, verify_pin. simpl.
  destruct (returned _); [| done].
  destruct (create_access_token now_token email) as [tok | e]; [done |].
  by destruct (isinstance_HTTPException e).
Qed.

(** X11.  What the endpoint can answer.  It returns a response only when
    [auth.verify_pin] ended at its verified site, and the response then
    carries the token [create_access_token] made for the address of the
    request.  Every call that ends at one of the four failure sites raises
    the same HTTP 401, whichever site it was.  In all cases, a raised
    exception included, [pin_storage] is left as [auth.verify_pin] left it:
    a refused attempt stays counted, and a PIN that verified is used up
    even when making the token fails. *)
Theorem verify_endpoint_answers :
  forall (D : Deployment) now_pin now_token email entered w,
    let site := fst (verify_pin_traced now_pin email entered (pin_storage w)) in
    let r := app_verify_pin now_pin now_token email entered w in
    match fst r with
    | Returns resp =>
        site = PinVerified /\
        create_access_token now_token email = Returns (access_token resp) /\
        login_email resp = email /\ login_success resp = true
    | Raises e =>
        (site <> PinVerified /\ e = invalid_pin) \/
        (site = PinVerified /\ pin_storage (snd r) !! email = None /\
         exists e', create_access_token now_token email = Raises e')
    end
    /\ pin_storage (snd r)
       = snd (verify_pin_traced now_pin email entered (pin_storage w))
    /\ outbox (snd r) = outbox w /\ pin_log (snd r) = pin_log w.
Proof.
  intros D now_pin now_token email entered w site r. split.
  - pose proof (app_verify_pin_storage now_pin now_token email entered w)
      as Hstore. fold r in Hstore.
    pose proof (verify_pin_meets_spec now_pin email entered (pin_storage w))
      as Hspec. fold site in Hspec.
    subst r. unfold app_verify_pin, verify_pin in *. simpl in *. fold site.
    destruct site eqn:Hsite; simpl;
      try (left; split; [discriminate | reflexivity]).
    destruct (create_access_token now_token email) as [tok | e'] eqn:Htok.
    + simpl. done.
    + assert (Hgone : snd (verify_pin_traced now_pin email entered
                             (pin_storage w)) !! email = None).
      { inversion Hspec; apply lookup_delete_eq. }
      destruct (isinstance_HTTPException e'); simpl;
        right; (split; [done | split; [exact Hgone | by exists e']]).
  - split; [apply app_verify_pin_storage |].
    subst r. unfold app_verify_pin. simpl.
    destruct (returned _); [| done].
    destruct (create_access_token now_token email) as [tok | e']; [done |].
    by destruct (isinstance_HTTPException e').
Qed.

(** ** Logging in, end to end *)

Lemma bits_of_pos_no_space p : has_no_space (bits_of_pos p) = true.
Proof. induction p as [q IH | q IH |]; simpl; by rewrite ?IH. Qed.

Lemma prod_encode_not_one p q : prod_encode p q <> 1%positive.
Proof. destruct p, q; discriminate. Qed.

Lemma bits_of_pos_not_empty p :
  p <> 1%positive -> py_not_str (bits_of_pos p) = false.
Proof. destruct p; simpl; congruence. Qed.

(** The tokens of the sample deployment have the shape of real ones. *)
Lemma sample_token_format user password :
  @jose_token_format (sample_deployment user password).
Proof.
  intros claims key alg tok. simpl. unfold sample_encode.
  destruct (claims !! "exp") as [[| s | z | t] |]; try discriminate.
  intros [= <-]. split.
  - apply bits_of_pos_no_space.
  - apply bits_of_pos_not_empty, prod_encode_not_one.
Qed.

(** X12.  The whole login, given a JWT library that keeps the promises of
    python-jose and serialises tokens without white space.  A PIN is
    requested for a non-empty address; the generated PIN is submitted before
    it expires; the endpoint returns a login response for that address and
    uses the PIN up; and the returned token, sent as [Bearer <token>] at any
    clock reading before its own expiry, makes [get_current_user] return
    the address. *)
Theorem login_round_trip :
  forall (D : Deployment), jose_contract -> jose_token_format ->
    forall w email now_sweep now_store rng smtp now_pin now_token now_use,
      py_not_str email = false ->
      now_pin <= now_store + timedelta_minutes 10 ->
      now_use < now_token + timedelta_minutes ACCESS_TOKEN_EXPIRE_MINUTES ->
      let w1 := snd (request_pin now_sweep now_store rng smtp email w) in
      let r := app_verify_pin now_pin now_token email (generate_pin rng) w1 in
      exists token,
        fst r = Returns {| login_success := true;
                           login_message := "Login successful!";
                           access_token := token;
                           token_type := "bearer";
                           login_email := email |}
        /\ pin_storage (snd r) !! email = None
        /\ get_current_user now_use (Some ("Bearer " ++ token)%string)
           = Returns (PyStr email).
Proof.
  intros D Hjose Hformat w email now_sweep now_store rng smtp
    now_pin now_token now_use Hemail Hpin Huse w1 r.
  assert (Hlook : pin_storage w1 !! email
                  = Some {| pin := generate_pin rng;
                            expires_at := now_store + timedelta_minutes 10;
                            attempts := 0 |}).
  { unfold w1. rewrite request_pin_pin_storage. apply store_pin_lookup. }
  assert (Hsite : verify_pin_traced now_pin email (generate_pin rng)
                    (pin_storage w1)
                  = (PinVerified, delete email (pin_storage w1))).
  { eapply verify_pin_match; [exact Hlook | simpl; lia | simpl; lia | done]. }
  destruct Hjose as [Henc Hdec].
  destruct (Henc SECRET_KEY email
              (now_token + timedelta_minutes ACCESS_TOKEN_EXPIRE_MINUTES))
    as [token Htoken].
  exists token.
  assert (Hcreate : create_access_token now_token email = Returns token)
    by exact Htoken.
  split; [| split].
  - unfold r, app_verify_pin, verify_pin. rewrite Hsite. simpl.
    by rewrite Hcreate.
  - unfold r. rewrite app_verify_pin_storage, Hsite. simpl.
    apply lookup_delete_eq.
  - destruct (Hformat _ _ _ _ Htoken) as [Hword Hnonempty].
    destruct (Hdec SECRET_KEY email _ token now_use Htoken) as
      (payload & Hpayload & Hsub); [lia |].
    rewrite (get_current_user_two_words now_use _ "Bearer" token).
    + rewrite (verify_token_decoded _ _ _ Hpayload). unfold py_get.
      rewrite Hsub. simpl. by rewrite Hemail.
    + pose proof (py_split_two_words "" "Bearer" " " token "") as Hsplit.
      rewrite append_nil_l, append_empty_r in Hsplit.
      apply Hsplit; try done. by apply py_not_str_false.
    + reflexivity.
Qed.

Lemma login_round_trip_witness :
  let w0 := {| pin_storage := ∅; outbox := []; pin_log := [] |} in
  let w1 := snd (@request_pin dev_deployment 0 0 (fun i => i) SmtpSent
                   "a@x.com" w0) in
  let r := @app_verify_pin dev_deployment 5 6 "a@x.com" "012345" w1 in
  (@jose_contract dev_deployment /\ @jose_token_format dev_deployment /\
   py_not_str "a@x.com" = false /\
   5 <= 0 + timedelta_minutes 10 /\
   7 < 6 + timedelta_minutes ACCESS_TOKEN_EXPIRE_MINUTES) /\
  exists token,
    fst r = Returns {| login_success := true;
                       login_message := "Login successful!";
                       access_token := token;
                       token_type := "bearer";
                       login_email := "a@x.com" |}
    /\ pin_storage (snd r) !! "a@x.com" = None
    /\ @get_current_user dev_deployment 7 (Some ("Bearer " ++ token)%string)
       = Returns (PyStr "a@x.com").
Proof.
  intros w0 w1 r.
  assert (Hpin : 5 <= 0 + timedelta_minutes 10)
    by (unfold timedelta_minutes; lia).
  assert (Huse : 7 < 6 + timedelta_minutes ACCESS_TOKEN_EXPIRE_MINUTES)
    by (unfold timedelta_minutes, ACCESS_TOKEN_EXPIRE_MINUTES; lia).
  split.
  { split; [apply sample_deployment_contract |].
    split; [apply sample_token_format |]. by repeat split. }
  exact (login_round_trip dev_deployment
           (sample_deployment_contract "" "") (sample_token_format "" "")
           w0 "a@x.com" 0 0 (fun i => i) SmtpSent 5 6 7 eq_refl Hpin Huse).
Defined.

(** ** What the login endpoints keep true *)

Lemma served_reachable `{D : Deployment} w :
  served w -> reachable (pin_storage w).
Proof.
  induction 1 as [| w now_sweep now_store rng smtp email _ IH
                  | w now_pin now_token email entered _ IH].
  - apply reachable_start.
  - rewrite request_pin_pin_storage.
    apply (reachable_call _ (CallStorePin now_store email (generate_pin rng))).
    by apply (reachable_call _ (CallCleanup now_sweep)).
  - rewrite app_verify_pin_storage.
    by apply (reachable_call _ (CallVerifyPin now_pin email entered)).
Qed.

Lemma served_six_digits `{D : Deployment} w :
  served w ->
  forall email e, pin_storage w !! email = Some e -> six_digits (pin e) = true.
Proof.
  induction 1 as [| w now_sweep now_store rng smtp email _ IH
                  | w now_pin now_token email entered _ IH];
    intros k e.
  - simpl. by rewrite lookup_empty.
  - rewrite request_pin_pin_storage. unfold store_pin.
    rewrite lookup_insert_Some. intros [[_ <-] | [_ Hk]].
    + apply generate_pin_digits.
    + rewrite cleanup_lookup in Hk.
      destruct (pin_storage w !! k) as [x|] eqn:Hx; [| discriminate].
      destruct (expires_at x <? now_sweep); [discriminate |].
      injection Hk as <-. by apply (IH k).
  - rewrite app_verify_pin_storage.
    destruct (verify_pin_meets_spec now_pin email entered (pin_storage w))
      as [Hno | x Hx _ | x Hx _ _ | x Hx _ _ _ | x Hx _ _ _];
      try apply IH;
      try (rewrite lookup_delete_Some; intros [_ Hk]; by apply (IH k)).
    rewrite lookup_insert_Some. intros [[_ <-] | [_ Hk]].
    + simpl. by apply (IH email).
    + by apply (IH k).
Qed.

(** X13.  In every state the [request_pin] and [verify_pin] endpoints can
    produce from the empty store, each pending PIN is a string of six
    decimal digits and its failure count lies between 0 and 3. *)
Theorem served_pins_are_well_formed :
  forall (D : Deployment) w email e,
    served w ->
    pin_storage w !! email = Some e ->
    six_digits (pin e) = true /\ 0 <= attempts e <= 3.
Proof.
  intros D w email e Hserved He. split.
  - by apply (served_six_digits w Hserved email).
  - by apply (reachable_attempts_bounded _ (served_reachable w Hserved) email).
Qed.

Lemma served_pins_are_well_formed_witness :
  let w0 := {| pin_storage := ∅; outbox := []; pin_log := [] |} in
  let w1 := snd (@request_pin mail_deployment 0 0 (fun i => (i + 4) * 7)%nat
                   (SmtpRaised "Connection refused") "a@x.com" w0) in
  let w2 := snd (@app_verify_pin mail_deployment 5 5 "a@x.com" "000000" w1) in
  let e := {| pin := "852963"; expires_at := 600000000; attempts := 1 |} in
  (@served mail_deployment w2 /\ pin_storage w2 !! "a@x.com" = Some e) /\
  six_digits (pin e) = true /\ 0 <= attempts e <= 3.
Proof.
  intros w0 w1 w2 e.
  assert (Hserved : @served mail_deployment w2)
    by (apply served_verify_pin, served_request_pin, served_start).
  assert (He : pin_storage w2 !! "a@x.com" = Some e)
    by (vm_compute; reflexivity).
  split; [by split |].
  exact (served_pins_are_well_formed mail_deployment w2 "a@x.com" e Hserved He).
Defined.

(** ** The employee routes *)

Lemma upload_if_given_calls file :
  snd (upload_if_given file)
  = match file_given file with
    | Some f => [Upload f]
    | None => []
    end.
Proof. unfold upload_if_given. by destruct (file_given file). Qed.

Lemma no_db_call_in_uploads file data :
  DbCreate data ∉ snd (upload_if_given file).
Proof.
  rewrite upload_if_given_calls. destruct (file_given file).
  - intros Hin. apply list_elem_of_singleton in Hin. discriminate.
  - apply not_elem_of_nil.
Qed.

Lemma upload_if_given_returns file url :
  fst (upload_if_given file) = Returns url ->
  match file_given file with
  | Some f => upload_to_vercel_blob f = Returns url
  | None => url = PyNone
  end.
Proof.
  unfold upload_if_given. destruct (file_given file); simpl; congruence.
Qed.

(** X15.  The body of [create_employee].  Every failure, whether of an
    upload or of the database, is raised as HTTP 400.  The database is
    called at most once, as the last call, and only after each file that
    was given has been uploaded and its upload has returned; it receives the
    form fields of the request, and for each file the value its upload
    returned, or [None] when no file was given.  A returned row is the row
    the database returned. *)
Theorem create_employee_uploads_then_inserts :
  forall (D : Deployment) (DB : Database)
         name email position department picture resume,
    let r := create_employee name email position department picture resume in
    (forall e, fst r = Raises e -> exists detail, e = HTTPException 400 detail)
    /\ (forall data, DbCreate data ∈ snd r ->
          ed_name data = name /\ ed_email data = email /\
          ed_position data = position /\ ed_department data = department /\
          match file_given picture with
          | Some f => upload_to_vercel_blob f = Returns (ed_picture_url data)
          | None => ed_picture_url data = PyNone
          end /\
          match file_given resume with
          | Some f => upload_to_vercel_blob f = Returns (ed_resume_url data)
          | None => ed_resume_url data = PyNone
          end /\
          snd r = snd (upload_if_given picture)
                  ++ snd (upload_if_given resume) ++ [DbCreate data])
    /\ (forall row, fst r = Returns row ->
          exists data, DbCreate data ∈ snd r
                       /\ db_create_employee data = Returns row).
Proof.
  intros D DB name email position department picture resume r.
  subst r. unfold create_employee.
  pose proof (no_db_call_in_uploads picture) as Hno1.
  pose proof (no_db_call_in_uploads resume) as Hno2.
  pose proof (upload_if_given_returns picture) as Hret1.
  pose proof (upload_if_given_returns resume) as Hret2.
  destruct (upload_if_given picture) as [[u1 | e1] t1]; simpl in *.
  2:{ split; [intros e [= <-]; by eexists |].
      split; [intros data Hin; by apply Hno1 in Hin | discriminate]. }
  destruct (upload_if_given resume) as [[u2 | e2] t2]; simpl in *.
  2:{ split; [intros e [= <-]; by eexists |].
      split; [| discriminate]. intros data Hin.
      apply elem_of_app in Hin as [Hin | Hin];
        [by apply Hno1 in Hin | by apply Hno2 in Hin]. }
  set (data := {| ed_name := name; ed_email := email;
                  ed_position := position; ed_department := department;
                  ed_picture_url := u1; ed_resume_url := u2 |}).
  assert (Hdata : forall d,
             DbCreate d ∈ t1 ++ t2 ++ [DbCreate data] -> d = data).
  { intros d Hin. apply elem_of_app in Hin as [Hin | Hin];
      [by apply Hno1 in Hin |].
    apply elem_of_app in Hin as [Hin | Hin]; [by apply Hno2 in Hin |].
    apply list_elem_of_singleton in Hin. congruence. }
  assert (Hfacts : forall d, DbCreate d ∈ t1 ++ t2 ++ [DbCreate data] ->
            ed_name d = name /\ ed_email d = email /\
            ed_position d = position /\ ed_department d = department /\
            match file_given picture with
            | Some f => upload_to_vercel_blob f = Returns (ed_picture_url d)
            | None => ed_picture_url d = PyNone
            end /\
            match file_given resume with
            | Some f => upload_to_vercel_blob f = Returns (ed_resume_url d)
            | None => ed_resume_url d = PyNone
            end /\
            t1 ++ t2 ++ [DbCreate data] = t1 ++ t2 ++ [DbCreate d]).
  { intros d Hin. rewrite (Hdata d Hin). simpl.
    repeat split; [by apply Hret1 | by apply Hret2]. }
  assert (Hlast : DbCreate data ∈ t1 ++ t2 ++ [DbCreate data]).
  { apply elem_of_app. right. apply elem_of_app. right.
    apply list_elem_of_singleton. done. }
  destruct (db_create_employee data) as [row | e] eqn:Hdb; simpl.
  - destruct (row !! "id"); simpl.
    + split; [discriminate |]. split; [exact Hfacts |].
      intros row' [= <-]. by exists data.
    + split; [intros e [= <-]; by eexists |].
      split; [exact Hfacts | discriminate].
  - split; [intros e' [= <-]; by eexists |].
    split; [exact Hfacts | discriminate].
Qed.

(** X16.  A picture whose upload the blob store answers with a status other
    than 200 (201 included).  Neither route uploads the resume nor calls the
    database.  [create_employee] raises HTTP 400, with the text of the
    upload's exception as detail; [update_employee] raises the upload's own
    HTTP 500 "File upload failed". *)
Theorem refused_upload_400_on_create_500_on_update :
  forall (D : Deployment) (DB : Database) employee_id
         name email position department picture resume f status_code body,
    file_given picture = Some f ->
    blob f = BlobAnswered status_code body ->
    status_code <> 200 ->
    create_employee name email position department picture resume
    = (Raises (HTTPException 400
                 (exn_str (HTTPException 500 "File upload failed"))),
       [Upload f])
    /\ update_employee employee_id name email position department
         picture resume
       = (Raises (HTTPException 500 "File upload failed"), [Upload f]).
Proof.
  intros D DB employee_id name email position department picture resume
    f status_code body Hgiven Hblob Hstatus.
  assert (Hup : upload_if_given picture
                = (Raises (HTTPException 500 "File upload failed"),
                   [Upload f])).
  { unfold upload_if_given. rewrite Hgiven.
    unfold upload_to_vercel_blob. rewrite Hblob.
    destruct (Z.eqb_spec status_code 200); [done | reflexivity]. }
  unfold create_employee, update_employee. rewrite Hup. done.
Qed.

Lemma refused_upload_400_on_create_500_on_update_witness :
  let photo :=
    {| filename := Some "ada.png"%string;
       blob := BlobAnswered 201
                 (Returns (JsonObject
                    (<["url" := PyStr "https://blob/ada.png"]> ∅))) |} in
  (file_given (Some photo) = Some photo /\
   blob photo = BlobAnswered 201
                  (Returns (JsonObject
                     (<["url" := PyStr "https://blob/ada.png"]> ∅))) /\
   201 <> 200) /\
  @create_employee dev_deployment sample_database
     "Ada" "ada@x.com" None None (Some photo) None
  = (Raises (HTTPException 400 "File upload failed"), [Upload photo])
  /\ @update_employee dev_deployment sample_database 1
       "Ada" "ada@x.com" None None (Some photo) None
     = (Raises (HTTPException 500 "File upload failed"), [Upload photo]).
Proof.
  intros photo.
  assert (Hstatus : 201 <> 200) by lia.
  split; [by repeat split |].
  exact (refused_upload_400_on_create_500_on_update dev_deployment
           sample_database 1 "Ada" "ada@x.com" None None (Some photo) None
           photo 201 _ eq_refl eq_refl Hstatus).
Defined.
